(** * WorkingCopyFileService: coordination of move / copy / delete with dirty working copies

    Shallow embedding of
    [src/vs/workbench/services/workingCopy/common/workingCopyFileService.ts].

    The service is an [async] class whose methods thread three pieces of
    state: the private counter [correlationIds], the working copies known to
    the injected [IWorkingCopyService], and everything owned by the injected
    [IFileService] and by event listeners (the "world").  Each method is
    embedded as a function from a state to a completion (normal return or
    thrown error), a final state and the trace of observable effects that
    the invocation produced, in program order. *)

From Stdlib Require Import ZArith List String Ascii Bool Lia Permutation Sorted.
Import ListNotations.
Open Scope string_scope.
Open Scope Z_scope.

(** ** Values *)

(** [URI] of [vs/base/common/uri]: the components the service looks at. *)
Record URI : Type := mkURI { scheme : string; path : string }.

Definition URI_eqb (a b : URI) : bool :=
  String.eqb (scheme a) (scheme b) && String.eqb (path a) (path b).

(** The members of [FileOperation] that the service uses. *)
Inductive FileOperation : Type := DELETE | MOVE | COPY.

(** A thrown JavaScript value. *)
Record JSError : Type := mkError { message : string }.

(** [IFileStatWithMetadata]: the service only passes it through. *)
Record IFileStatWithMetadata : Type :=
  mkStat { stat_resource : URI; stat_mtime : Z; stat_size : Z }.

(** The optional second argument of [delete]. *)
Record DeleteOptions : Type :=
  mkDeleteOptions { useTrash : option bool; recursive : option bool }.

(** The values that can sit in a property of an event object. *)
Inductive JSValue : Type :=
| JNumber (n : Z)
| JOperation (op : FileOperation)
| JResource (u : URI)
| JStat (st : IFileStatWithMetadata).

(** An object literal [{ k1: v1, ..., kn: vn }], in source order. *)
Definition JSObject : Type := list (string * JSValue).

(** Property read [o.k] ([None] is [undefined]). *)
Fixpoint get_prop (o : JSObject) (k : string) : option JSValue :=
  match o with
  | [] => None
  | (k', v) :: o' => if String.eqb k k' then Some v else get_prop o' k
  end.

(** An [IWorkingCopy] object: its identity, its [resource] and whether
    [isDirty()] currently answers true. *)
Record WorkingCopy : Type :=
  mkWorkingCopy { wc_ref : nat; resource : URI; isDirty : bool }.

Definition markClean (w : WorkingCopy) : WorkingCopy :=
  mkWorkingCopy (wc_ref w) (resource w) false.

(** The three emitters of the service. *)
Inductive Emitter : Type :=
| onWillRunWorkingCopyFileOperation
| onDidFailWorkingCopyFileOperation
| onDidRunWorkingCopyFileOperation.

(** A call on the injected file service. *)
Inductive FsCall : Type :=
| FsMove (source target : URI) (overwrite : option bool)
| FsCopy (source target : URI) (overwrite : option bool)
| FsDel (target : URI) (options : option DeleteOptions).

(** Observable effects of an invocation. *)
Inductive Event : Type :=
| EvFireAsync (e : Emitter) (data : JSObject)
    (** [e.fireAsync(data, CancellationToken.None)] is called *)
| EvFireAsyncDone (e : Emitter) (data : JSObject)
    (** the promise of that call has been awaited *)
| EvRevertCall (w : WorkingCopy) (soft : bool)
    (** [w.revert({ soft })] is called *)
| EvRevertResolved (w : WorkingCopy)
| EvRevertRejected (w : WorkingCopy) (err : JSError)
| EvFsCall (c : FsCall)
    (** the file service method is called *)
| EvFsResolved (c : FsCall) (st : option IFileStatWithMetadata)
| EvFsRejected (c : FsCall) (err : JSError).

(** How an [async] function completes. *)
Inductive Completion (A : Type) : Type :=
| Return (a : A)
| Throw (e : JSError).
Arguments Return {A} a.
Arguments Throw {A} e.

(** ** Numbers

    [correlationIds] is a JavaScript [number].  Starting from [0] and only
    ever changed by [++] it holds a non-negative integer; up to [2^53] every
    such integer is a double and [n + 1] is exact, and at [2^53] the sum
    [2^53 + 1] is not a double and rounds (to even) back to [2^53].  The
    counter therefore never leaves [0 .. 2^53], the range on which
    [number_succ] is the sum of doubles. *)
Definition MAX_EXACT : Z := 2 ^ 53.

Definition number_succ (n : Z) : Z :=
  if n <? MAX_EXACT then n + 1 else n.

(** ** Resources ([vs/base/common/resources]) *)

(** The segments of a path: the maximal non-empty runs of characters other
    than the separator. *)
Fixpoint segments_aux (cur : string) (p : string) : list string :=
  match p with
  | EmptyString => if String.eqb cur "" then [] else [cur]
  | String c p' =>
      if Ascii.eqb c "/"%char
      then (if String.eqb cur "" then segments_aux "" p'
            else cur :: segments_aux "" p')
      else segments_aux (cur ++ String c EmptyString) p'
  end.

Definition segments (p : string) : list string := segments_aux "" p.

(** [l1] is a proper prefix of [l2]. *)
Fixpoint proper_prefixb (l1 l2 : list string) : bool :=
  match l1, l2 with
  | [], [] => false
  | [], _ :: _ => true
  | _ :: _, [] => false
  | a :: l1', b :: l2' => String.eqb a b && proper_prefixb l1' l2'
  end.

(** Modelled from the spec: [isEqual] of [vs/base/common/resources], whose
    source is missing; the spec describes it as exact equality of the two
    resources. *)
Definition isEqual (a b : URI) : bool := URI_eqb a b.

(** Modelled from the spec: [isEqualOrParent] of [vs/base/common/resources],
    whose source is missing; the spec describes it as "equals the target or
    is a descendant of it", the containment being by path segments and not
    by string prefix. *)
Definition isEqualOrParent (base parentCandidate : URI) : bool :=
  isEqual base parentCandidate
  || (String.eqb (scheme base) (scheme parentCandidate)
      && proper_prefixb (segments (path parentCandidate)) (segments (path base))).

(** The relation the spec words: [base] lies strictly below [parent],
    some further segments following all the segments of [parent]. *)
Definition descendant_of (base parent : URI) : Prop :=
  scheme base = scheme parent /\
  exists seg rest,
    segments (path base) = (segments (path parent) ++ seg :: rest)%list.

(** ** Collaborators

    The service receives its collaborators through its constructor.  They
    are interfaces to it, and so they are here: every definition and theorem
    below holds for any implementation.  [W] is the state the collaborators
    own (the disk, the registered providers, whatever listeners keep).  The
    working copies are kept apart from [W]: the file service and the
    listeners act on [W], and a working copy changes when a revert of it
    resolves. *)

(** The part of [IFileService] that the service calls. *)
Class IFileService (W : Type) : Type := {
  canHandleResource : W -> URI -> bool;
  fileService_move :
    URI -> URI -> option bool -> W -> Completion IFileStatWithMetadata * W;
  fileService_copy :
    URI -> URI -> option bool -> W -> Completion IFileStatWithMetadata * W;
  fileService_del :
    URI -> option DeleteOptions -> W -> Completion unit * W
}.

(** What the listeners registered on an emitter do with an event. *)
Class Listeners (W : Type) : Type := {
  listeners_run : Emitter -> JSObject -> W -> W
}.

(** What [IWorkingCopy.revert] answers, and in which order the runtime
    settles reverts that are in flight together.  [revert_outcome w soft ws x]
    is [None] when the promise of [w.revert({ soft })] resolves and [Some err]
    when it rejects with [err], the working copies being [ws] and the world
    [x] at that moment. *)
Class WorkingCopyRuntime (W : Type) : Type := {
  revert_outcome : WorkingCopy -> bool -> list WorkingCopy -> W -> option JSError;
  settle_order : W -> list WorkingCopy -> list WorkingCopy;
  settle_order_perm : forall x l, Permutation (settle_order x l) l
}.

(** ** State, runs and the monad of [async] methods *)

Record State (W : Type) : Type := mkState {
  correlationIds : Z;                  (* [private correlationIds = 0] *)
  workingCopies : list WorkingCopy;    (* known to [IWorkingCopyService] *)
  world : W
}.
Arguments mkState {W} _ _ _.
Arguments correlationIds {W} _.
Arguments workingCopies {W} _.
Arguments world {W} _.

Record Run (W A : Type) : Type := mkRun {
  outcome : Completion A;
  final : State W;
  trace : list Event
}.
Arguments mkRun {W A} _ _ _.
Arguments outcome {W A} _.
Arguments final {W A} _.
Arguments trace {W A} _.

Definition M (W A : Type) : Type := State W -> Run W A.

Definition ret {W A} (a : A) : M W A := fun s => mkRun (Return a) s [].

Definition throw {W A} (e : JSError) : M W A := fun s => mkRun (Throw e) s [].

Definition bind {W A B} (m : M W A) (k : A -> M W B) : M W B :=
  fun s =>
    match m s with
    | mkRun (Return a) s' t =>
        match k a s' with
        | mkRun o s'' t' => mkRun o s'' (t ++ t')
        end
    | mkRun (Throw e) s' t => mkRun (Throw e) s' t
    end.

(** [try { m } catch (error) { h error }] *)
Definition try_catch {W A} (m : M W A) (h : JSError -> M W A) : M W A :=
  fun s =>
    match m s with
    | mkRun (Return a) s' t => mkRun (Return a) s' t
    | mkRun (Throw e) s' t =>
        match h e s' with
        | mkRun o s'' t' => mkRun o s'' (t ++ t')
        end
    end.

Definition emit {W} (ev : Event) : M W unit :=
  fun s => mkRun (Return tt) s [ev].

Definition gets {W A} (f : State W -> A) : M W A :=
  fun s => mkRun (Return (f s)) s [].

Definition modify {W} (f : State W -> State W) : M W unit :=
  fun s => mkRun (Return tt) (f s) [].

Declare Scope async_scope.
Delimit Scope async_scope with async.
Notation "x <- m ;; k" := (bind m (fun x => k))
  (at level 100, m at next level, right associativity) : async_scope.
Notation "m ;; k" := (bind m (fun _ => k))
  (at level 100, right associativity) : async_scope.
Open Scope async_scope.

Definition fmap {W A B} (f : A -> B) (m : M W A) : M W B :=
  a <- m ;; ret (f a).

(** ** The service *)

Section Service.
Context {W : Type}.
Context {FS : IFileService W} {LS : Listeners W} {RT : WorkingCopyRuntime W}.

(** [const correlationId = this.correlationIds++] *)
Definition next_correlationId : M W Z :=
  fun s =>
    mkRun (Return (correlationIds s))
          (mkState (number_succ (correlationIds s)) (workingCopies s) (world s))
          [].

(** Modelled from the spec: [AsyncEmitter.fireAsync] of
    [vs/base/common/event], whose source is missing.  The spec has the
    broadcast awaited, every listener contribution completing before the
    method goes on, and has listeners unable to abort the operation: the
    promise resolves, after the listeners did their work. *)
Definition fireAsync (e : Emitter) (data : JSObject) : M W unit :=
  emit (EvFireAsync e data) ;;
  modify (fun s =>
    mkState (correlationIds s) (workingCopies s)
            (listeners_run e data (world s))) ;;
  emit (EvFireAsyncDone e data).

(** Modelled from the spec: [IWorkingCopyService.dirtyWorkingCopies], whose
    source is missing; the spec has it answer all the working copies that
    are dirty. *)
Definition dirtyWorkingCopies (s : State W) : list WorkingCopy :=
  filter isDirty (workingCopies s).

(** [private getDirtyWorkingCopies(resource: URI): IWorkingCopy[]] *)
Definition getDirtyWorkingCopies (resource' : URI) (s : State W)
  : list WorkingCopy :=
  filter (fun dirty =>
            if canHandleResource (world s) resource'
            then isEqualOrParent (resource dirty) resource'
            else isEqual (resource dirty) resource')
         (dirtyWorkingCopies s).

(** Modelled from the spec: the effect of a resolved [IWorkingCopy.revert],
    whose implementations are missing; the spec has a revert clear the dirty
    flag of the copy. *)
Definition reverted (w : WorkingCopy) (s : State W) : State W :=
  mkState (correlationIds s)
          (map (fun x => if Nat.eqb (wc_ref x) (wc_ref w) then markClean x else x)
               (workingCopies s))
          (world s).

(** The calls [dirtyWorkingCopy.revert({ soft: true })] that [map] makes,
    one after the other, before anything is awaited. *)
Fixpoint revert_calls (ws : list WorkingCopy) : M W unit :=
  match ws with
  | [] => ret tt
  | w :: ws' => emit (EvRevertCall w true) ;; revert_calls ws'
  end.

(** The reverts in flight settle one by one; the first rejection rejects
    the promise of [Promise.all] and the method stops waiting. *)
Fixpoint settle (ws : list WorkingCopy) : M W unit :=
  match ws with
  | [] => ret tt
  | w :: ws' =>
      o <- gets (fun s => revert_outcome w true (workingCopies s) (world s)) ;;
      match o with
      | Some err => emit (EvRevertRejected w err) ;; throw err
      | None =>
          modify (reverted w) ;;
          emit (EvRevertResolved w) ;;
          settle ws'
      end
  end.

(** [await Promise.all(dirtyWorkingCopies.map(w => w.revert({ soft: true })))] *)
Definition Promise_all_revert (ws : list WorkingCopy) : M W unit :=
  revert_calls ws ;;
  order <- gets (fun s => settle_order (world s) ws) ;;
  settle order.

(** A call on the file service, with its completion in the trace. *)
Definition fs_call {A} (c : FsCall) (f : W -> Completion A * W)
    (st : A -> option IFileStatWithMetadata) : M W A :=
  emit (EvFsCall c) ;;
  r <- gets (fun s => f (world s)) ;;
  modify (fun s => mkState (correlationIds s) (workingCopies s) (snd r)) ;;
  match fst r with
  | Return a => emit (EvFsResolved c (st a)) ;; ret a
  | Throw err => emit (EvFsRejected c err) ;; throw err
  end.

Definition operation_of (move : bool) : FileOperation :=
  if move then MOVE else COPY.

(** [{ correlationId, operation: move ? MOVE : COPY, target, source }] *)
Definition moveOrCopy_event (correlationId : Z) (move : bool)
    (target source : URI) : JSObject :=
  [ ("correlationId", JNumber correlationId);
    ("operation", JOperation (operation_of move));
    ("target", JResource target);
    ("source", JResource source) ].

(** [{ correlationId, operation: FileOperation.DELETE, target: resource }] *)
Definition delete_event (correlationId : Z) (resource' : URI) : JSObject :=
  [ ("correlationId", JNumber correlationId);
    ("operation", JOperation DELETE);
    ("target", JResource resource') ].

(** [private async moveOrCopy(source, target, move, overwrite?)] *)
Definition moveOrCopy (source target : URI) (move : bool)
    (overwrite : option bool) : M W IFileStatWithMetadata :=
  correlationId <- next_correlationId ;;
  (* before event *)
  fireAsync onWillRunWorkingCopyFileOperation
    (moveOrCopy_event correlationId move target source) ;;
  (* move: revert both source and target; copy: revert target *)
  dirty <- gets (fun s =>
    if move
    then (getDirtyWorkingCopies source s ++ getDirtyWorkingCopies target s)%list
    else getDirtyWorkingCopies target s) ;;
  Promise_all_revert dirty ;;
  (* now rename the source to target via the file operation *)
  stat <- try_catch
    (if move
     then fs_call (FsMove source target overwrite)
                  (fileService_move source target overwrite) Some
     else fs_call (FsCopy source target overwrite)
                  (fileService_copy source target overwrite) Some)
    (fun error =>
       fireAsync onDidFailWorkingCopyFileOperation
         (moveOrCopy_event correlationId move target source) ;;
       throw error) ;;
  (* after event *)
  fireAsync onDidRunWorkingCopyFileOperation
    (moveOrCopy_event correlationId move target source) ;;
  ret stat.

(** [async move(source, target, overwrite?)] *)
Definition move (source target : URI) (overwrite : option bool)
  : M W IFileStatWithMetadata :=
  moveOrCopy source target true overwrite.

(** [async copy(source, target, overwrite?)] *)
Definition copy (source target : URI) (overwrite : option bool)
  : M W IFileStatWithMetadata :=
  moveOrCopy source target false overwrite.

(** [async delete(resource, options?)] *)
Definition delete (resource' : URI) (options : option DeleteOptions)
  : M W unit :=
  correlationId <- next_correlationId ;;
  (* before event *)
  fireAsync onWillRunWorkingCopyFileOperation
    (delete_event correlationId resource') ;;
  (* soft revert of the dirty working copies for the resource *)
  dirty <- gets (getDirtyWorkingCopies resource') ;;
  Promise_all_revert dirty ;;
  (* now actually delete from disk *)
  try_catch
    (fs_call (FsDel resource' options)
             (fileService_del resource' options) (fun _ => None))
    (fun error =>
       fireAsync onDidFailWorkingCopyFileOperation
         (delete_event correlationId resource') ;;
       throw error) ;;
  (* after event *)
  fireAsync onDidRunWorkingCopyFileOperation
    (delete_event correlationId resource').

End Service.

(** ** Invocations *)

(** What a caller can ask of the service. *)
Inductive Request : Type :=
| ReqMove (source target : URI) (overwrite : option bool)
| ReqCopy (source target : URI) (overwrite : option bool)
| ReqDelete (resource' : URI) (options : option DeleteOptions).

Section Invocations.
Context {W : Type}.
Context {FS : IFileService W} {LS : Listeners W} {RT : WorkingCopyRuntime W}.

(** One invocation; [delete] answers [void], here [None]. *)
Definition invoke (req : Request) : M W (option IFileStatWithMetadata) :=
  match req with
  | ReqMove source target overwrite => fmap Some (move source target overwrite)
  | ReqCopy source target overwrite => fmap Some (copy source target overwrite)
  | ReqDelete resource' options => fmap (fun _ => None) (delete resource' options)
  end.

(** Invocations made one after the other, each awaited (and its error, if
    any, caught) before the next is made. *)
Fixpoint invoke_all (reqs : list Request) (s : State W)
  : list (Run W (option IFileStatWithMetadata)) :=
  match reqs with
  | [] => []
  | req :: reqs' =>
      let r := invoke req s in
      r :: invoke_all reqs' (final r)
  end.

(** The event object that the invocation hands to its emitters. *)
Definition descriptor (req : Request) (correlationId : Z) : JSObject :=
  match req with
  | ReqMove source target _ => moveOrCopy_event correlationId true target source
  | ReqCopy source target _ => moveOrCopy_event correlationId false target source
  | ReqDelete resource' _ => delete_event correlationId resource'
  end.

(** The call that the invocation makes on the file service. *)
Definition request_call (req : Request) : FsCall :=
  match req with
  | ReqMove source target overwrite => FsMove source target overwrite
  | ReqCopy source target overwrite => FsCopy source target overwrite
  | ReqDelete resource' options => FsDel resource' options
  end.

(** What the file service answers to that call. *)
Definition request_answer (req : Request) (x : W)
  : Completion (option IFileStatWithMetadata) * W :=
  match req with
  | ReqMove source target overwrite =>
      match fileService_move source target overwrite x with
      | (Return st, x') => (Return (Some st), x')
      | (Throw err, x') => (Throw err, x')
      end
  | ReqCopy source target overwrite =>
      match fileService_copy source target overwrite x with
      | (Return st, x') => (Return (Some st), x')
      | (Throw err, x') => (Throw err, x')
      end
  | ReqDelete resource' options =>
      match fileService_del resource' options x with
      | (Return _, x') => (Return None, x')
      | (Throw err, x') => (Throw err, x')
      end
  end.

(** The state once the id is taken and the will-run broadcast is over:
    the state in which the dirty working copies are looked up. *)
Definition will_run_state (req : Request) (s : State W) : State W :=
  mkState (number_succ (correlationIds s))
          (workingCopies s)
          (listeners_run onWillRunWorkingCopyFileOperation
                         (descriptor req (correlationIds s)) (world s)).

(** The dirty working copies that the invocation looks up. *)
Definition resolved (req : Request) (s : State W) : list WorkingCopy :=
  let s1 := will_run_state req s in
  match req with
  | ReqMove source target _ =>
      (getDirtyWorkingCopies source s1 ++ getDirtyWorkingCopies target s1)%list
  | ReqCopy _ target _ => getDirtyWorkingCopies target s1
  | ReqDelete resource' _ => getDirtyWorkingCopies resource' s1
  end.

(** The state after the reverts of [ws] resolved, in that order. *)
Definition reverted_all (ws : list WorkingCopy) (s : State W) : State W :=
  fold_left (fun s' w => reverted w s') ws s.

(** *** The three ways an invocation can run

    The trace up to the point where the reverts are in flight, the order
    in which they settle, and the state in which the disk mutation is
    issued. *)
Definition prelude (req : Request) (s : State W) : list Event :=
  ([ EvFireAsync onWillRunWorkingCopyFileOperation
       (descriptor req (correlationIds s));
     EvFireAsyncDone onWillRunWorkingCopyFileOperation
       (descriptor req (correlationIds s)) ]
   ++ map (fun w => EvRevertCall w true) (resolved req s))%list.

Definition settle_list (req : Request) (s : State W) : list WorkingCopy :=
  settle_order (world (will_run_state req s)) (resolved req s).

Definition disk_state (req : Request) (s : State W) : State W :=
  reverted_all (settle_list req s) (will_run_state req s).

Definition after_broadcast (e : Emitter) (data : JSObject)
    (s : State W) (x : W) : State W :=
  mkState (correlationIds s) (workingCopies s) (listeners_run e data x).

(** How reverts in flight settle: all resolve, or some resolve and then
    one rejects. *)
Inductive Settled (ws : list WorkingCopy) (s : State W) : Run W unit -> Prop :=
| AllResolved :
    Settled ws s
      (mkRun (Return tt) (reverted_all ws s) (map EvRevertResolved ws))
| OneRejected (done : list WorkingCopy) (w : WorkingCopy) (err : JSError)
              (later : list WorkingCopy) :
    ws = (done ++ w :: later)%list ->
    Settled ws s
      (mkRun (Throw err) (reverted_all done s)
             (map EvRevertResolved done ++ [EvRevertRejected w err])).

(** An invocation stops at a rejected revert, or at a failed disk
    mutation after the did-fail broadcast, or returns after the did-run
    broadcast. *)
Inductive InvocationRun (req : Request) (s : State W)
  : Run W (option IFileStatWithMetadata) -> Prop :=
| RevertFailed (done : list WorkingCopy) (w : WorkingCopy) (err : JSError)
               (later : list WorkingCopy) :
    settle_list req s = (done ++ w :: later)%list ->
    InvocationRun req s
      (mkRun (Throw err)
             (reverted_all done (will_run_state req s))
             (prelude req s ++ map EvRevertResolved done
                ++ [EvRevertRejected w err]))
| DiskFailed (err : JSError) (x : W) :
    request_answer req (world (disk_state req s)) = (Throw err, x) ->
    InvocationRun req s
      (mkRun (Throw err)
             (after_broadcast onDidFailWorkingCopyFileOperation
                (descriptor req (correlationIds s)) (disk_state req s) x)
             (prelude req s ++ map EvRevertResolved (settle_list req s)
                ++ [ EvFsCall (request_call req);
                     EvFsRejected (request_call req) err;
                     EvFireAsync onDidFailWorkingCopyFileOperation
                       (descriptor req (correlationIds s));
                     EvFireAsyncDone onDidFailWorkingCopyFileOperation
                       (descriptor req (correlationIds s)) ]))
| DiskDone (st : option IFileStatWithMetadata) (x : W) :
    request_answer req (world (disk_state req s)) = (Return st, x) ->
    InvocationRun req s
      (mkRun (Return st)
             (after_broadcast onDidRunWorkingCopyFileOperation
                (descriptor req (correlationIds s)) (disk_state req s) x)
             (prelude req s ++ map EvRevertResolved (settle_list req s)
                ++ [ EvFsCall (request_call req);
                     EvFsResolved (request_call req) st;
                     EvFireAsync onDidRunWorkingCopyFileOperation
                       (descriptor req (correlationIds s));
                     EvFireAsyncDone onDidRunWorkingCopyFileOperation
                       (descriptor req (correlationIds s)) ])).

End Invocations.

(** ** Reading traces *)

Definition Emitter_eqb (a b : Emitter) : bool :=
  match a, b with
  | onWillRunWorkingCopyFileOperation, onWillRunWorkingCopyFileOperation => true
  | onDidFailWorkingCopyFileOperation, onDidFailWorkingCopyFileOperation => true
  | onDidRunWorkingCopyFileOperation, onDidRunWorkingCopyFileOperation => true
  | _, _ => false
  end.

(** [fireAsync] is called on emitter [e]. *)
Definition is_fire (e : Emitter) (ev : Event) : bool :=
  match ev with EvFireAsync e' _ => Emitter_eqb e e' | _ => false end.

(** The broadcast on emitter [e] is over. *)
Definition is_fire_done (e : Emitter) (ev : Event) : bool :=
  match ev with EvFireAsyncDone e' _ => Emitter_eqb e e' | _ => false end.

(** A revert starts. *)
Definition is_revert_call (ev : Event) : bool :=
  match ev with EvRevertCall _ _ => true | _ => false end.

(** Any event of a revert: its call or its settling. *)
Definition is_revert (ev : Event) : bool :=
  match ev with
  | EvRevertCall _ _ | EvRevertResolved _ | EvRevertRejected _ _ => true
  | _ => false
  end.

(** The disk mutation is issued. *)
Definition is_fs_call (ev : Event) : bool :=
  match ev with EvFsCall _ => true | _ => false end.

(** The disk mutation attempt is over. *)
Definition is_fs_settled (ev : Event) : bool :=
  match ev with EvFsResolved _ _ | EvFsRejected _ _ => true | _ => false end.

(** [revert({ soft: true })] is called on the working copy [r]. *)
Definition is_soft_revert_of (r : nat) (ev : Event) : bool :=
  match ev with
  | EvRevertCall w true => Nat.eqb (wc_ref w) r
  | _ => false
  end.

(** How many events of a trace satisfy [p]. *)
Definition count (p : Event -> bool) (t : list Event) : nat :=
  List.length (filter p t).

(** The working copies on which a revert is called, in order. *)
Definition revert_targets (t : list Event) : list WorkingCopy :=
  flat_map (fun ev => match ev with EvRevertCall w _ => [w] | _ => [] end) t.

(** Every event satisfying [p] lies before every event satisfying [q]. *)
Definition before (p q : Event -> bool) (t : list Event) : Prop :=
  forall i j e e',
    nth_error t i = Some e -> nth_error t j = Some e' ->
    p e = true -> q e' = true -> (i < j)%nat.

(** The correlation id of an invocation, as its will-run event carries it. *)
Definition will_run_id {W A} (r : Run W A) : option Z :=
  match trace r with
  | EvFireAsync onWillRunWorkingCopyFileOperation data :: _ =>
      match get_prop data "correlationId" with
      | Some (JNumber n) => Some n
      | _ => None
      end
  | _ => None
  end.

(** The ids [c], [c + 1], ..., [c + n - 1]. *)
Fixpoint ids_from (c : Z) (n : nat) : list Z :=
  match n with
  | O => []
  | S n' => c :: ids_from (c + 1) n'
  end.

(** The event object carries the file metadata [st] in some property. *)
Definition carries_stat (data : JSObject) (st : IFileStatWithMetadata) : Prop :=
  exists k, get_prop data k = Some (JStat st).

(** ** A small implementation of the collaborators

    A disk that is a list of resources, a file service that handles the
    [file] scheme as a tree, listeners that count the events they saw, and
    working copies whose revert fails when they are listed as failing. *)
Module TestServices.

Record TestWorld : Type := mkTestWorld {
  disk : list URI;
  failing : list nat;
  seen : nat
}.

Definition on_disk (r : URI) (x : TestWorld) : bool :=
  existsb (URI_eqb r) (disk x).

Definition without (r : URI) (l : list URI) : list URI :=
  filter (fun u => negb (URI_eqb r u)) l.

Definition ENOENT : JSError := mkError "ENOENT".
Definition EEXIST : JSError := mkError "EEXIST".

Definition test_stat (r : URI) : IFileStatWithMetadata := mkStat r 42 7.

Definition test_transfer (keep : bool) (source target : URI)
    (overwrite : option bool) (x : TestWorld)
  : Completion IFileStatWithMetadata * TestWorld :=
  if negb (on_disk source x) then (Throw ENOENT, x)
  else if on_disk target x
            && negb (match overwrite with Some true => true | _ => false end)
  then (Throw EEXIST, x)
  else (Return (test_stat target),
        mkTestWorld
          (target :: without target
                       (if keep then disk x else without source (disk x)))
          (failing x) (seen x)).

Definition test_del (r : URI) (_ : option DeleteOptions) (x : TestWorld)
  : Completion unit * TestWorld :=
  if on_disk r x
  then (Return tt, mkTestWorld (without r (disk x)) (failing x) (seen x))
  else (Throw ENOENT, x).

#[export] Instance test_fileService : IFileService TestWorld := {|
  canHandleResource := fun _ r => String.eqb (scheme r) "file";
  fileService_move := test_transfer false;
  fileService_copy := test_transfer true;
  fileService_del := test_del
|}.

#[export] Instance test_listeners : Listeners TestWorld := {|
  listeners_run := fun _ _ x => mkTestWorld (disk x) (failing x) (S (seen x))
|}.

#[export] Instance test_runtime : WorkingCopyRuntime TestWorld := {|
  revert_outcome := fun w _ _ x =>
    if existsb (Nat.eqb (wc_ref w)) (failing x)
    then Some (mkError "revert failed") else None;
  settle_order := fun _ l => rev l;
  settle_order_perm := fun _ l => Permutation_sym (Permutation_rev l)
|}.

Definition file (p : string) : URI := mkURI "file" p.
Definition mem (p : string) : URI := mkURI "mem" p.

Definition fresh (ws : list WorkingCopy) (x : TestWorld) : State TestWorld :=
  mkState 0 ws x.

End TestServices.

(** ** Scenarios *)
Module Scenarios.
Import TestServices.

(** A dirty copy of [/a/file.txt]. *)
Definition file_txt : WorkingCopy := mkWorkingCopy 1 (file "/a/file.txt") true.
(** A dirty copy of [/a/b/c], below both [/a] and [/a/b]. *)
Definition deep : WorkingCopy := mkWorkingCopy 2 (file "/a/b/c") true.
(** A dirty copy of [/a/b] under a scheme that the file service does not
    handle as a tree. *)
Definition flat_child : WorkingCopy := mkWorkingCopy 3 (mem "/a/b") true.
(** A dirty copy of [/z/old.txt]. *)
Definition z_old : WorkingCopy := mkWorkingCopy 4 (file "/z/old.txt") true.

Definition copies : list WorkingCopy := [file_txt; deep; flat_child; z_old].

Definition disk0 : list URI :=
  [file "/a/file.txt"; file "/a"; file "/a/b"; mem "/a"].

(** A fresh service over that disk, every revert resolving. *)
Definition s0 : State TestWorld := fresh copies (mkTestWorld disk0 [] 0).

(** The same, the revert of [deep] rejecting. *)
Definition s_failing : State TestWorld :=
  fresh copies (mkTestWorld disk0 [2%nat] 0).

(** A service whose counter has reached [2^53]. *)
Definition s_saturated : State TestWorld :=
  mkState MAX_EXACT copies (mkTestWorld disk0 [] 0).

End Scenarios.


(** ** More vocabulary for invocations *)

(** The resources an operation is about: the dirty copies of these are among
    those it looks up, whatever the file service can handle. *)
Definition touched_resources (req : Request) : list URI :=
  match req with
  | ReqMove source target _ => [source; target]
  | ReqCopy _ target _ => [target]
  | ReqDelete resource' _ => [resource']
  end.

Definition request_operation (req : Request) : FileOperation :=
  match req with
  | ReqMove _ _ _ => MOVE
  | ReqCopy _ _ _ => COPY
  | ReqDelete _ _ => DELETE
  end.

Definition request_target (req : Request) : URI :=
  match req with
  | ReqMove _ target _ => target
  | ReqCopy _ target _ => target
  | ReqDelete resource' _ => resource'
  end.

Definition request_source (req : Request) : option URI :=
  match req with
  | ReqMove source _ _ => Some source
  | ReqCopy source _ _ => Some source
  | ReqDelete _ _ => None
  end.

Section Sequences.
Context {W : Type}.
Context {FS : IFileService W} {LS : Listeners W} {RT : WorkingCopyRuntime W}.

(** The state that invocations made one after the other leave. *)
Fixpoint state_after (reqs : list Request) (s : State W) : State W :=
  match reqs with
  | [] => s
  | req :: reqs' => state_after reqs' (final (invoke req s))
  end.

(** The value of the counter at the start of each of these invocations. *)
Fixpoint counters (reqs : list Request) (s : State W) : list Z :=
  match reqs with
  | [] => []
  | req :: reqs' => correlationIds s :: counters reqs' (final (invoke req s))
  end.

End Sequences.

(** ** Earlier revisions of the service

    Two earlier revisions of the file have [delete] only.  They keep no
    counter, have no did-fail emitter, and fire did-run through a plain
    [Emitter], whose [fire] calls the listeners synchronously.  Their runs
    record the effects of the current revision and that synchronous
    [fire]. *)

Inductive LegacyEvent : Type :=
| Awaited (ev : Event)
    (** an effect that the current revision has too *)
| EvFire (e : Emitter) (data : JSObject).
    (** [e.fire(data)] *)

Record LegacyRun (W A : Type) : Type := mkLegacyRun {
  legacy_outcome : Completion A;
  legacy_final : State W;
  legacy_trace : list LegacyEvent
}.
Arguments mkLegacyRun {W A} _ _ _.
Arguments legacy_outcome {W A} _.
Arguments legacy_final {W A} _.
Arguments legacy_trace {W A} _.

Definition LM (W A : Type) : Type := State W -> LegacyRun W A.

Definition lift {W A} (m : M W A) : LM W A :=
  fun s =>
    match m s with
    | mkRun o s' t => mkLegacyRun o s' (map Awaited t)
    end.

Definition legacy_bind {W A B} (m : LM W A) (k : A -> LM W B) : LM W B :=
  fun s =>
    match m s with
    | mkLegacyRun (Return a) s' t =>
        match k a s' with
        | mkLegacyRun o s'' t' => mkLegacyRun o s'' (t ++ t')
        end
    | mkLegacyRun (Throw e) s' t => mkLegacyRun (Throw e) s' t
    end.

Declare Scope legacy_scope.
Delimit Scope legacy_scope with legacy.
Notation "x <- m ;; k" := (legacy_bind m (fun x => k))
  (at level 100, m at next level, right associativity) : legacy_scope.
Notation "m ;; k" := (legacy_bind m (fun _ => k))
  (at level 100, right associativity) : legacy_scope.

(** The events of the current revision in a legacy trace. *)
Definition awaited_events (t : list LegacyEvent) : list Event :=
  flat_map (fun ev => match ev with Awaited e => [e] | EvFire _ _ => [] end) t.

(** The event objects fired synchronously on [e]. *)
Definition fired_sync (e : Emitter) (t : list LegacyEvent) : list JSObject :=
  flat_map (fun ev => match ev with
                      | EvFire e' data => if Emitter_eqb e e' then [data] else []
                      | Awaited _ => []
                      end) t.

Section LegacyFire.
Context {W : Type}.
Context {LS : Listeners W}.

(** Modelled from the spec: [Emitter.fire] of [vs/base/common/event], whose
    source is missing.  As for the broadcasts of the spec, the listeners see
    the event and cannot abort the operation. *)
Definition fire (e : Emitter) (data : JSObject) : LM W unit :=
  fun s =>
    mkLegacyRun (Return tt)
      (mkState (correlationIds s) (workingCopies s)
               (listeners_run e data (world s)))
      [EvFire e data].

End LegacyFire.

(** The revision of [src/unnamed/part_000]. *)
Module Part000.
Section Part000.
Context {W : Type}.
Context {FS : IFileService W} {LS : Listeners W} {RT : WorkingCopyRuntime W}.

(** [private getDirtyWorkingCopies(resource: URI): IWorkingCopy[]] *)
Definition getDirtyWorkingCopies (resource' : URI) (s : State W)
  : list WorkingCopy :=
  filter (fun dirty => isEqualOrParent (resource dirty) resource')
         (dirtyWorkingCopies s).

(** [{ operation: FileOperation.DELETE, target: resource }] *)
Definition delete_event (resource' : URI) : JSObject :=
  [ ("operation", JOperation DELETE); ("target", JResource resource') ].

(** [async delete(resource, options?)] *)
Definition delete (resource' : URI) (options : option DeleteOptions)
  : LM W unit :=
  (* before event *)
  (lift (fireAsync onWillRunWorkingCopyFileOperation (delete_event resource')) ;;
   (* soft revert of the dirty working copies for the resource *)
   dirty <- lift (gets (getDirtyWorkingCopies resource')) ;;
   lift (Promise_all_revert dirty) ;;
   (* now actually delete from disk *)
   lift (fs_call (FsDel resource' options)
                 (fileService_del resource' options) (fun _ => None)) ;;
   (* after event *)
   fire onDidRunWorkingCopyFileOperation (delete_event resource'))%legacy.

End Part000.
End Part000.

(** The revision of [src/unnamed/part_001]: the filter is written in
    [delete] itself, and did-run gets an instance of the class
    [FileOperationDidRunEvent].  That class is declared in
    [vs/platform/files/common/files], whose source is missing: the object
    that [new FileOperationDidRunEvent(operation, target)] builds is a
    parameter. *)
Module Part001.
Section Part001.
Context {W : Type}.
Context {FS : IFileService W} {LS : Listeners W} {RT : WorkingCopyRuntime W}.
Variable FileOperationDidRunEvent : FileOperation -> URI -> JSObject.

(** [async delete(resource, options?)] *)
Definition delete (resource' : URI) (options : option DeleteOptions)
  : LM W unit :=
  (* before event *)
  (lift (fireAsync onWillRunWorkingCopyFileOperation
           [ ("operation", JOperation DELETE); ("target", JResource resource') ]) ;;
   (* soft revert of the dirty working copies for the resource *)
   dirty <- lift (gets (fun s =>
     filter (fun dirty => isEqualOrParent (resource dirty) resource')
            (dirtyWorkingCopies s))) ;;
   lift (Promise_all_revert dirty) ;;
   (* now actually delete from disk *)
   lift (fs_call (FsDel resource' options)
                 (fileService_del resource' options) (fun _ => None)) ;;
   (* after event *)
   fire onDidRunWorkingCopyFileOperation
        (FileOperationDidRunEvent DELETE resource'))%legacy.

(** The state in which [delete] looks up the dirty working copies, the
    copies it finds and the order in which their reverts settle. *)
Definition lookup_state (resource' : URI) (s : State W) : State W :=
  mkState (correlationIds s) (workingCopies s)
          (listeners_run onWillRunWorkingCopyFileOperation
             [ ("operation", JOperation DELETE); ("target", JResource resource') ]
             (world s)).

Definition looked_up (resource' : URI) (s : State W) : list WorkingCopy :=
  Part000.getDirtyWorkingCopies resource' (lookup_state resource' s).

Definition settling (resource' : URI) (s : State W) : list WorkingCopy :=
  settle_order (world (lookup_state resource' s)) (looked_up resource' s).

Definition opening (resource' : URI) (s : State W) : list Event :=
  ([ EvFireAsync onWillRunWorkingCopyFileOperation
       [ ("operation", JOperation DELETE); ("target", JResource resource') ];
     EvFireAsyncDone onWillRunWorkingCopyFileOperation
       [ ("operation", JOperation DELETE); ("target", JResource resource') ] ]
   ++ map (fun w => EvRevertCall w true) (looked_up resource' s))%list.

(** The three ways a [delete] of these revisions can run. *)
Inductive DeleteRun (resource' : URI) (options : option DeleteOptions)
    (s : State W) : LegacyRun W unit -> Prop :=
| RevertFailed (done : list WorkingCopy) (w : WorkingCopy) (err : JSError)
               (later : list WorkingCopy) :
    settling resource' s = (done ++ w :: later)%list ->
    DeleteRun resource' options s
      (mkLegacyRun (Throw err)
         (reverted_all done (lookup_state resource' s))
         (map Awaited
            (opening resource' s ++ map EvRevertResolved done
               ++ [EvRevertRejected w err])))
| DiskFailed (err : JSError) (x : W) :
    fileService_del resource' options
      (world (reverted_all (settling resource' s) (lookup_state resource' s)))
    = (Throw err, x) ->
    DeleteRun resource' options s
      (mkLegacyRun (Throw err)
         (mkState (correlationIds s)
            (workingCopies
               (reverted_all (settling resource' s) (lookup_state resource' s)))
            x)
         (map Awaited
            (opening resource' s
               ++ map EvRevertResolved (settling resource' s)
               ++ [ EvFsCall (FsDel resource' options);
                    EvFsRejected (FsDel resource' options) err ])))
| DiskDone (x : W) :
    fileService_del resource' options
      (world (reverted_all (settling resource' s) (lookup_state resource' s)))
    = (Return tt, x) ->
    DeleteRun resource' options s
      (mkLegacyRun (Return tt)
         (mkState (correlationIds s)
            (workingCopies
               (reverted_all (settling resource' s) (lookup_state resource' s)))
            (listeners_run onDidRunWorkingCopyFileOperation
               (FileOperationDidRunEvent DELETE resource') x))
         (map Awaited
            (opening resource' s
               ++ map EvRevertResolved (settling resource' s)
               ++ [ EvFsCall (FsDel resource' options);
                    EvFsResolved (FsDel resource' options) None ])
          ++ [ EvFire onDidRunWorkingCopyFileOperation
                 (FileOperationDidRunEvent DELETE resource') ])).

End Part001.
End Part001.

(** The class instance of part_001 read as the object literal of part_000. *)
Definition did_run_literal (operation : FileOperation) (target : URI) : JSObject :=
  [ ("operation", JOperation operation); ("target", JResource target) ].


(** ** More scenarios *)
Module MoreScenarios.
Import TestServices Scenarios.

(** The service of [s0] with every working copy saved. *)
Definition s_clean : State TestWorld :=
  fresh (map markClean copies) (mkTestWorld disk0 [] 0).

End MoreScenarios.

(** * Properties *)

Example segments_ex1 : segments "/a/b.txt" = ["a"; "b.txt"].
Proof. reflexivity. Qed.

Example isEqualOrParent_child :
  isEqualOrParent (mkURI "file" "/a/b.txt") (mkURI "file" "/a") = true.
Proof. reflexivity. Qed.

Example isEqualOrParent_not_string_prefix :
  isEqualOrParent (mkURI "file" "/a/bc") (mkURI "file" "/a/b") = false.
Proof. reflexivity. Qed.

(** ** Lists and traces *)

Lemma before_app (p q : Event -> bool) (t1 t2 : list Event) :
  (forall e, In e t1 -> q e = false) ->
  (forall e, In e t2 -> p e = false) ->
  before p q (t1 ++ t2).
Proof.
  intros Hq Hp i j e e' Hi Hj Hpe Hqe.
  assert (Hi' : (i < List.length t1)%nat).
  { destruct (Nat.lt_ge_cases i (List.length t1)) as [Hlt|Hge]; [exact Hlt|].
    rewrite nth_error_app2 in Hi by exact Hge.
    apply nth_error_In in Hi. rewrite (Hp _ Hi) in Hpe. discriminate. }
  assert (Hj' : (List.length t1 <= j)%nat).
  { destruct (Nat.lt_ge_cases j (List.length t1)) as [Hlt|Hge]; [|exact Hge].
    rewrite nth_error_app1 in Hj by exact Hlt.
    apply nth_error_In in Hj. rewrite (Hq _ Hj) in Hqe. discriminate. }
  lia.
Qed.

Lemma in_map_revert_call (ws : list WorkingCopy) (e : Event) :
  In e (map (fun w => EvRevertCall w true) ws) ->
  exists w, e = EvRevertCall w true /\ In w ws.
Proof.
  intros H. apply in_map_iff in H. destruct H as [w [<- Hw]]. eauto.
Qed.

Lemma in_map_revert_resolved (ws : list WorkingCopy) (e : Event) :
  In e (map EvRevertResolved ws) ->
  exists w, e = EvRevertResolved w /\ In w ws.
Proof.
  intros H. apply in_map_iff in H. destruct H as [w [<- Hw]]. eauto.
Qed.

Lemma revert_targets_app (t1 t2 : list Event) :
  revert_targets (t1 ++ t2) = (revert_targets t1 ++ revert_targets t2)%list.
Proof. unfold revert_targets. apply flat_map_app. Qed.

Lemma revert_targets_calls (ws : list WorkingCopy) :
  revert_targets (map (fun w => EvRevertCall w true) ws) = ws.
Proof.
  unfold revert_targets.
  induction ws as [|w ws IH]; simpl; [reflexivity | now f_equal].
Qed.

Lemma revert_targets_resolved (ws : list WorkingCopy) :
  revert_targets (map EvRevertResolved ws) = [].
Proof. induction ws as [|w ws IH]; simpl; auto. Qed.

Lemma count_app (p : Event -> bool) (t1 t2 : list Event) :
  count p (t1 ++ t2) = (count p t1 + count p t2)%nat.
Proof. unfold count. now rewrite filter_app, length_app. Qed.

Lemma count_none (p : Event -> bool) (t : list Event) :
  (forall e, In e t -> p e = false) -> count p t = 0%nat.
Proof.
  unfold count. induction t as [|e t IH]; simpl; intros H; [reflexivity|].
  rewrite (H e (or_introl eq_refl)). apply IH. intros; apply H; now right.
Qed.

(** ** The shape of a run *)

Section Runs.
Context {W : Type}.
Context {FS : IFileService W} {LS : Listeners W} {RT : WorkingCopyRuntime W}.

Lemma reverted_all_world (ws : list WorkingCopy) (s : State W) :
  world (reverted_all ws s) = world s.
Proof.
  revert s. induction ws as [|w ws IH]; intros s; simpl; [reflexivity|].
  unfold reverted_all in *. simpl. now rewrite IH.
Qed.

Lemma reverted_all_ids (ws : list WorkingCopy) (s : State W) :
  correlationIds (reverted_all ws s) = correlationIds s.
Proof.
  revert s. induction ws as [|w ws IH]; intros s; simpl; [reflexivity|].
  unfold reverted_all in *. simpl. now rewrite IH.
Qed.

Lemma reverted_all_app (l1 l2 : list WorkingCopy) (s : State W) :
  reverted_all (l1 ++ l2) s = reverted_all l2 (reverted_all l1 s).
Proof. unfold reverted_all. apply fold_left_app. Qed.

Lemma revert_calls_run (ws : list WorkingCopy) (s : State W) :
  revert_calls ws s = mkRun (Return tt) s (map (fun w => EvRevertCall w true) ws).
Proof.
  induction ws as [|w ws IH]; simpl; [reflexivity|].
  unfold bind, emit. simpl. now rewrite IH.
Qed.

Lemma settle_run (ws : list WorkingCopy) (s : State W) :
  Settled ws s (settle ws s).
Proof.
  revert s. induction ws as [|w ws IH]; intros s; simpl.
  - apply AllResolved.
  - unfold bind at 1. unfold gets at 1. simpl.
    destruct (revert_outcome w true (workingCopies s) (world s)) as [err|] eqn:E.
    + apply (OneRejected (w :: ws) s [] w err ws). reflexivity.
    + unfold bind, modify, emit. simpl.
      destruct (IH (reverted w s)) as [|done w' err later Hws].
      * simpl. apply (AllResolved (w :: ws) s).
      * simpl. subst ws.
        apply (OneRejected (w :: done ++ w' :: later) s (w :: done) w' err later).
        reflexivity.
Qed.

Lemma InvocationRun_eq (req : Request) (s : State W)
    (r r' : Run W (option IFileStatWithMetadata)) :
  InvocationRun req s r -> r = r' -> InvocationRun req s r'.
Proof. intros H <-. exact H. Qed.

Ltac run_step :=
  cbv beta iota zeta delta
    [bind try_catch fmap ret throw emit gets modify fireAsync
     next_correlationId fs_call outcome final trace fst snd];
  cbn [correlationIds workingCopies world].

Ltac run_defs :=
  cbv beta iota zeta delta
    [prelude settle_list disk_state resolved will_run_state descriptor
     request_call request_answer after_broadcast];
  cbn [correlationIds workingCopies world].

Ltac run_trace :=
  run_defs; rewrite ?reverted_all_ids;
  repeat (rewrite <- ?app_assoc; cbn [app]);
  rewrite ?app_nil_r; reflexivity.

Lemma invoke_run (req : Request) (s : State W) :
  InvocationRun req s (invoke req s).
Proof.
  destruct req as [source target overwrite|source target overwrite|res options].
  - unfold invoke, move, copy, moveOrCopy, delete, Promise_all_revert.
    run_step. rewrite !revert_calls_run. run_step.
    match goal with |- context [settle ?l ?s0] => destruct (settle_run l s0) end.
    + run_step.
      destruct (fileService_move source target overwrite _) as [[st|err] x] eqn:E;
      run_step.
      * eapply InvocationRun_eq; [eapply (DiskDone _ _ (Some st) x) | run_trace].
        run_defs. now rewrite E.
      * eapply InvocationRun_eq; [eapply (DiskFailed _ _ err x) | run_trace].
        run_defs. now rewrite E.
    + run_step.
      eapply InvocationRun_eq; [eapply (RevertFailed _ _ done w err later) | run_trace].
      run_defs. assumption.
  - unfold invoke, move, copy, moveOrCopy, delete, Promise_all_revert.
    run_step. rewrite !revert_calls_run. run_step.
    match goal with |- context [settle ?l ?s0] => destruct (settle_run l s0) end.
    + run_step.
      destruct (fileService_copy source target overwrite _) as [[st|err] x] eqn:E;
      run_step.
      * eapply InvocationRun_eq; [eapply (DiskDone _ _ (Some st) x) | run_trace].
        run_defs. now rewrite E.
      * eapply InvocationRun_eq; [eapply (DiskFailed _ _ err x) | run_trace].
        run_defs. now rewrite E.
    + run_step.
      eapply InvocationRun_eq; [eapply (RevertFailed _ _ done w err later) | run_trace].
      run_defs. assumption.
  - unfold invoke, move, copy, moveOrCopy, delete, Promise_all_revert.
    run_step. rewrite !revert_calls_run. run_step.
    match goal with |- context [settle ?l ?s0] => destruct (settle_run l s0) end.
    + run_step.
      destruct (fileService_del res options _) as [[[]|err] x] eqn:E;
      run_step.
      * eapply InvocationRun_eq; [eapply (DiskDone _ _ None x) | run_trace].
        run_defs. now rewrite E.
      * eapply InvocationRun_eq; [eapply (DiskFailed _ _ err x) | run_trace].
        run_defs. now rewrite E.
    + run_step.
      eapply InvocationRun_eq; [eapply (RevertFailed _ _ done w err later) | run_trace].
      run_defs. assumption.
Qed.
End Runs.

(** ** The dirty-set resolver *)

Lemma URI_eqb_eq (a b : URI) : URI_eqb a b = true <-> a = b.
Proof.
  destruct a as [sa pa], b as [sb pb]. unfold URI_eqb. simpl.
  rewrite andb_true_iff, !String.eqb_eq. split.
  - intros [-> ->]. reflexivity.
  - intros H. inversion H. auto.
Qed.

Lemma proper_prefixb_spec (l1 l2 : list string) :
  proper_prefixb l1 l2 = true <->
  exists seg rest, l2 = (l1 ++ seg :: rest)%list.
Proof.
  revert l2. induction l1 as [|a l1 IH]; intros [|b l2]; simpl.
  - split; [discriminate | intros (seg & rest & H); discriminate].
  - split; [intros _; exists b, l2; reflexivity | reflexivity].
  - split; [discriminate | intros (seg & rest & H); discriminate].
  - rewrite andb_true_iff, String.eqb_eq, IH. split.
    + intros [-> (seg & rest & ->)]. exists seg, rest. reflexivity.
    + intros (seg & rest & H). inversion H. split; [reflexivity|].
      exists seg, rest. reflexivity.
Qed.

Lemma isEqualOrParent_spec (base parent : URI) :
  isEqualOrParent base parent = true <->
  base = parent \/ descendant_of base parent.
Proof.
  unfold isEqualOrParent, isEqual, descendant_of.
  rewrite orb_true_iff, andb_true_iff, URI_eqb_eq, String.eqb_eq,
    proper_prefixb_spec.
  reflexivity.
Qed.

Section Resolver.
Context {W : Type}.
Context {FS : IFileService W} {LS : Listeners W} {RT : WorkingCopyRuntime W}.

Lemma getDirtyWorkingCopies_In (target : URI) (s : State W) (w : WorkingCopy) :
  In w (getDirtyWorkingCopies target s) <->
  In w (workingCopies s) /\ isDirty w = true /\
  (resource w = target \/
   (canHandleResource (world s) target = true /\
    descendant_of (resource w) target)).
Proof.
  unfold getDirtyWorkingCopies, dirtyWorkingCopies.
  rewrite !filter_In.
  destruct (canHandleResource (world s) target).
  - rewrite isEqualOrParent_spec. tauto.
  - unfold isEqual. rewrite URI_eqb_eq.
    split; [tauto|]. intros (H1 & H2 & [H3|[H3 _]]); [tauto|discriminate].
Qed.

(** C6.  Where the file service can handle the target as part of a tree,
    the resolver selects exactly the dirty working copies whose resource is
    the target or lies below it by whole path segments; where it cannot,
    exactly the dirty working copies whose resource is the target. *)
Theorem C6_resolver_selects (target : URI) (s : State W) :
  (canHandleResource (world s) target = true ->
   forall w, In w (getDirtyWorkingCopies target s) <->
             In w (workingCopies s) /\ isDirty w = true /\
             (resource w = target \/ descendant_of (resource w) target))
  /\
  (canHandleResource (world s) target = false ->
   forall w, In w (getDirtyWorkingCopies target s) <->
             In w (workingCopies s) /\ isDirty w = true /\
             resource w = target).
Proof.
  split; intros H w; rewrite getDirtyWorkingCopies_In, H.
  - tauto.
  - split; [|tauto]. intros (H1 & H2 & [H3|[H3 _]]); [tauto|discriminate].
Qed.

End Resolver.

(** ** Reverts and the registry *)

Section Registry.
Context {W : Type}.
Context {FS : IFileService W} {LS : Listeners W} {RT : WorkingCopyRuntime W}.

(** The registry after the reverts of [ws] resolved. *)
Lemma reverted_all_registry (ws : list WorkingCopy) (s : State W) :
  workingCopies (reverted_all ws s) =
  map (fun x => if existsb (Nat.eqb (wc_ref x)) (map wc_ref ws)
                then markClean x else x)
      (workingCopies s).
Proof.
  revert s. induction ws as [|w ws IH]; intros s.
  - simpl. now rewrite map_id.
  - change (reverted_all (w :: ws) s) with (reverted_all ws (reverted w s)).
    rewrite IH. simpl. rewrite map_map. apply map_ext. intros x.
    destruct (Nat.eqb (wc_ref x) (wc_ref w)) eqn:E; simpl.
    + now destruct (existsb _ _).
    + reflexivity.
Qed.

Lemma existsb_ref (w : WorkingCopy) (ws : list WorkingCopy) (r : nat) :
  In w ws -> r = wc_ref w -> existsb (Nat.eqb r) (map wc_ref ws) = true.
Proof.
  intros Hin ->. apply existsb_exists. exists (wc_ref w). split.
  - now apply in_map.
  - apply Nat.eqb_refl.
Qed.

(** A working copy whose revert resolved is clean afterwards, and still
    registered. *)
Lemma reverted_all_clean (ws : list WorkingCopy) (s : State W) (w : WorkingCopy) :
  In w ws ->
  (forall x, In x (workingCopies (reverted_all ws s)) ->
             wc_ref x = wc_ref w -> isDirty x = false)
  /\ (In w (workingCopies s) ->
      In (markClean w) (workingCopies (reverted_all ws s))).
Proof.
  intros Hin. rewrite reverted_all_registry. split.
  - intros x Hx Href. apply in_map_iff in Hx. destruct Hx as [y [<- Hy]].
    destruct (existsb (Nat.eqb (wc_ref y)) (map wc_ref ws)) eqn:E.
    + reflexivity.
    + rewrite (existsb_ref w ws (wc_ref y) Hin Href) in E. discriminate.
  - intros Hreg. apply in_map_iff. exists w. split; [|exact Hreg].
    now rewrite (existsb_ref w ws (wc_ref w) Hin eq_refl).
Qed.

End Registry.

(** ** What every invocation does *)

Ltac in_trace H :=
  repeat match type of H with
  | In _ (prelude _ _) => unfold prelude in H
  | In _ (_ ++ _) => apply in_app_or in H; destruct H as [H|H]
  | In _ (map _ _) =>
      let x := fresh "x" in
      let Hx := fresh "Hx" in
      let H' := fresh "Heq" in
      apply in_map_iff in H; destruct H as [x [H' Hx]]; rename H' into H
  | In _ (_ :: _) => apply in_inv in H; destruct H as [H|H]
  | In _ [] => contradiction H
  end.

Ltac not_in_trace :=
  let e := fresh "e" in
  let He := fresh "He" in
  intros e He; in_trace He; subst e; reflexivity.

Section Pipeline.
Context {W : Type}.
Context {FS : IFileService W} {LS : Listeners W} {RT : WorkingCopyRuntime W}.

Lemma fmap_outcome {A B} (f : A -> B) (m : M W A) (s : State W) :
  outcome (fmap f m s) =
  match outcome (m s) with Return a => Return (f a) | Throw e => Throw e end.
Proof. unfold fmap, bind, ret. now destruct (m s) as [[a|e] s' t]. Qed.

Lemma fmap_final {A B} (f : A -> B) (m : M W A) (s : State W) :
  final (fmap f m s) = final (m s).
Proof. unfold fmap, bind, ret. now destruct (m s) as [[a|e] s' t]. Qed.

Lemma fmap_trace {A B} (f : A -> B) (m : M W A) (s : State W) :
  trace (fmap f m s) = trace (m s).
Proof.
  unfold fmap, bind, ret. destruct (m s) as [[a|e] s' t]; simpl; [|reflexivity].
  apply app_nil_r.
Qed.

Lemma settle_list_In (req : Request) (s : State W) (w : WorkingCopy) :
  In w (settle_list req s) <-> In w (resolved req s).
Proof.
  unfold settle_list. split; apply Permutation_in.
  - apply settle_order_perm.
  - apply Permutation_sym, settle_order_perm.
Qed.

(** The reverts that an invocation calls are those of the working copies
    it looked up, in that order, and nothing else. *)
Lemma revert_targets_invoke (req : Request) (s : State W) :
  revert_targets (trace (invoke req s)) = resolved req s.
Proof.
  destruct (invoke_run req s)
      as [done w' err later Hsplit|err x Hans|st' x Hans]; cbn [trace]; unfold prelude;
    rewrite !revert_targets_app, revert_targets_calls, revert_targets_resolved;
    simpl; now rewrite app_nil_r.
Qed.

Lemma revert_call_invoke (req : Request) (s : State W)
    (w : WorkingCopy) (soft : bool) :
  In (EvRevertCall w soft) (trace (invoke req s)) <->
  soft = true /\ In w (resolved req s).
Proof.
  split.
  - destruct (invoke_run req s)
      as [done w' err later Hsplit|err x Hans|st' x Hans]; cbn [trace]; intros H; in_trace H;
      try discriminate H; inversion H; subst; auto.
  - intros [-> H].
    destruct (invoke_run req s)
      as [done w' err later Hsplit|err x Hans|st' x Hans]; cbn [trace]; unfold prelude;
      rewrite !in_app_iff; left; right;
      apply in_map_iff; eauto.
Qed.

(** Once the disk mutation is issued, the revert of every working copy
    that was looked up has resolved, and the copy is clean from then on. *)
Lemma issued_after_reverts (req : Request) (s : State W) (c : FsCall) :
  In (EvFsCall c) (trace (invoke req s)) ->
  c = request_call req /\
  forall w, In w (resolved req s) ->
    In (EvRevertResolved w) (trace (invoke req s)) /\
    (In w (workingCopies s) ->
     In (markClean w) (workingCopies (final (invoke req s)))) /\
    (forall x, In x (workingCopies (final (invoke req s))) ->
               wc_ref x = wc_ref w -> isDirty x = false).
Proof.
  destruct (invoke_run req s)
      as [done w' err later Hsplit|err x Hans|st' x Hans]; cbn [trace final]; intros H; in_trace H;
    try discriminate H; inversion H; subst; (split; [reflexivity|]);
    intros w0 Hw; apply settle_list_In in Hw;
    (split; [rewrite !in_app_iff; right; left; now apply in_map|]);
    unfold after_broadcast, disk_state; cbn [workingCopies];
    destruct (reverted_all_clean (settle_list req s) (will_run_state req s) w0 Hw)
      as [Hclean Hreg]; auto.
Qed.

Lemma returned_issued (req : Request) (s : State W)
    (st : option IFileStatWithMetadata) :
  outcome (invoke req s) = Return st ->
  In (EvFsResolved (request_call req) st) (trace (invoke req s)) /\
  In (EvFsCall (request_call req)) (trace (invoke req s)).
Proof.
  destruct (invoke_run req s)
      as [done w' err later Hsplit|err x Hans|st' x Hans]; cbn [outcome trace]; intros H;
    try discriminate H; inversion H; subst;
    rewrite !in_app_iff; simpl; auto 10.
Qed.

End Pipeline.

(** ** Which working copies are reverted *)

Lemma refs_NoDup_filter (keep : WorkingCopy -> bool) (ws : list WorkingCopy) :
  NoDup (map wc_ref ws) -> NoDup (map wc_ref (filter keep ws)).
Proof.
  intros Hnd. induction ws as [|w ws IH]; simpl in *; [constructor|].
  inversion Hnd as [|? ? Hnotin Hrest]; subst.
  destruct (keep w); simpl; [|auto].
  constructor; [|auto].
  intros Hin. apply Hnotin. apply in_map_iff in Hin.
  destruct Hin as [x [Hx Hin]]. apply filter_In in Hin.
  apply in_map_iff. exists x. tauto.
Qed.

Lemma filter_ref_none (l : list WorkingCopy) (r : nat) :
  ~ In r (map wc_ref l) ->
  filter (fun x => Nat.eqb (wc_ref x) r) l = [].
Proof.
  induction l as [|b l IH]; simpl; intros Hnotin; [reflexivity|].
  destruct (Nat.eqb (wc_ref b) r) eqn:E.
  - exfalso. apply Hnotin. left. now apply Nat.eqb_eq in E.
  - apply IH. intros H. apply Hnotin. now right.
Qed.

Lemma count_ref_unique (l : list WorkingCopy) (w : WorkingCopy) :
  NoDup (map wc_ref l) -> In w l ->
  List.length (filter (fun x => Nat.eqb (wc_ref x) (wc_ref w)) l) = 1%nat.
Proof.
  induction l as [|a l IH]; simpl; intros Hnd Hin; [contradiction|].
  inversion Hnd as [|? ? Hnotin Hnodup]; subst.
  destruct Hin as [->|Hin].
  - rewrite Nat.eqb_refl. simpl. now rewrite filter_ref_none.
  - destruct (Nat.eqb (wc_ref a) (wc_ref w)) eqn:E.
    + exfalso. apply Hnotin. apply Nat.eqb_eq in E. rewrite E.
      now apply in_map.
    + now apply IH.
Qed.

Lemma count_ref_at_least (l : list WorkingCopy) (w : WorkingCopy) :
  In w l ->
  (1 <= List.length (filter (fun x => Nat.eqb (wc_ref x) (wc_ref w)) l))%nat.
Proof.
  induction l as [|a l IH]; simpl; intros Hin; [contradiction|].
  destruct Hin as [->|Hin].
  - rewrite Nat.eqb_refl. simpl. lia.
  - destruct (Nat.eqb (wc_ref a) (wc_ref w)); simpl; [lia|auto].
Qed.

Lemma count_soft_calls (r : nat) (ws : list WorkingCopy) :
  count (is_soft_revert_of r) (map (fun w => EvRevertCall w true) ws) =
  List.length (filter (fun x => Nat.eqb (wc_ref x) r) ws).
Proof.
  unfold count. induction ws as [|w ws IH]; simpl; [reflexivity|].
  destruct (Nat.eqb (wc_ref w) r); simpl; now rewrite IH.
Qed.

Section Reverts.
Context {W : Type}.
Context {FS : IFileService W} {LS : Listeners W} {RT : WorkingCopyRuntime W}.

Lemma getDirtyWorkingCopies_NoDup (target : URI) (s : State W) :
  NoDup (map wc_ref (workingCopies s)) ->
  NoDup (map wc_ref (getDirtyWorkingCopies target s)).
Proof.
  intros H. unfold getDirtyWorkingCopies, dirtyWorkingCopies.
  now do 2 apply refs_NoDup_filter.
Qed.

(** C1.  When [delete(P)] returns, every working copy that was dirty and
    whose resource is [P], or lies below [P] where the file service can
    handle [P], had its soft revert called and resolved, it is still
    registered and its dirty flag is false. *)
Theorem C1_delete_clears_dirty (P : URI) (options : option DeleteOptions)
    (s : State W) (w : WorkingCopy) :
  outcome (delete P options s) = Return tt ->
  In w (workingCopies s) ->
  isDirty w = true ->
  (resource w = P \/
   (canHandleResource (world (will_run_state (ReqDelete P options) s)) P = true
    /\ descendant_of (resource w) P)) ->
  In (EvRevertCall w true) (trace (delete P options s)) /\
  In (EvRevertResolved w) (trace (delete P options s)) /\
  In (markClean w) (workingCopies (final (delete P options s))) /\
  (forall x, In x (workingCopies (final (delete P options s))) ->
             wc_ref x = wc_ref w -> isDirty x = false).
Proof.
  intros Hret Hreg Hdirty Hmatch.
  assert (Hres : In w (resolved (ReqDelete P options) s)).
  { unfold resolved. apply getDirtyWorkingCopies_In. auto. }
  assert (Hout : outcome (invoke (ReqDelete P options) s) = Return None).
  { unfold invoke. now rewrite fmap_outcome, Hret. }
  rewrite <- (fmap_trace (fun _ => @None IFileStatWithMetadata)).
  rewrite <- (fmap_final (fun _ => @None IFileStatWithMetadata)).
  change (fmap (fun _ => None) (delete P options))
    with (invoke (ReqDelete P options)).
  destruct (returned_issued _ _ _ Hout) as [_ Hcall].
  destruct (issued_after_reverts _ _ _ Hcall) as [_ Hall].
  destruct (Hall w Hres) as (Hresolved & Hclean & Hflag).
  split; [apply revert_call_invoke; auto|]. auto.
Qed.

(** C2.  The working copies whose revert a move calls are those the
    resolver finds for the source together with those it finds for the
    target; the ones a copy calls are exactly those the resolver finds for
    the target, so that a working copy found for the source only is not
    reverted by a copy.  Every such revert is a soft one. *)
Theorem C2_move_both_copy_target (source target : URI)
    (overwrite : option bool) (s : State W) :
  (forall w,
     In w (revert_targets (trace (move source target overwrite s))) <->
     In w (getDirtyWorkingCopies source
             (will_run_state (ReqMove source target overwrite) s)) \/
     In w (getDirtyWorkingCopies target
             (will_run_state (ReqMove source target overwrite) s)))
  /\
  (forall w,
     In w (revert_targets (trace (copy source target overwrite s))) <->
     In w (getDirtyWorkingCopies target
             (will_run_state (ReqCopy source target overwrite) s)))
  /\
  (forall w,
     In w (getDirtyWorkingCopies source
             (will_run_state (ReqCopy source target overwrite) s)) ->
     ~ In w (getDirtyWorkingCopies target
               (will_run_state (ReqCopy source target overwrite) s)) ->
     ~ In w (revert_targets (trace (copy source target overwrite s))))
  /\
  (forall w soft,
     In (EvRevertCall w soft) (trace (move source target overwrite s)) \/
     In (EvRevertCall w soft) (trace (copy source target overwrite s)) ->
     soft = true).
Proof.
  rewrite <- (fmap_trace Some (move source target overwrite)).
  rewrite <- (fmap_trace Some (copy source target overwrite)).
  change (fmap Some (move source target overwrite))
    with (invoke (ReqMove source target overwrite)).
  change (fmap Some (copy source target overwrite))
    with (invoke (ReqCopy source target overwrite)).
  rewrite !revert_targets_invoke. unfold resolved.
  split; [|split; [|split]].
  - intros w. apply in_app_iff.
  - intros w. reflexivity.
  - intros w _ H. exact H.
  - intros w soft [H|H]; apply revert_call_invoke in H; tauto.
Qed.

(** The soft reverts that a move calls on the reference [r]: those of the
    working copies found for the source and those found for the target. *)
Lemma move_soft_reverts (source target : URI) (overwrite : option bool)
    (s : State W) (r : nat) :
  count (is_soft_revert_of r) (trace (move source target overwrite s))
  = (List.length
       (filter (fun x => Nat.eqb (wc_ref x) r)
          (getDirtyWorkingCopies source
             (will_run_state (ReqMove source target overwrite) s)))
     + List.length
         (filter (fun x => Nat.eqb (wc_ref x) r)
            (getDirtyWorkingCopies target
               (will_run_state (ReqMove source target overwrite) s))))%nat.
Proof.
  rewrite <- (fmap_trace Some (move source target overwrite)).
  change (fmap Some (move source target overwrite))
    with (invoke (ReqMove source target overwrite)).
  assert (Hpre : count (is_soft_revert_of r)
                   (prelude (ReqMove source target overwrite) s)
                 = (List.length
                      (filter (fun x => Nat.eqb (wc_ref x) r)
                         (getDirtyWorkingCopies source
                            (will_run_state (ReqMove source target overwrite) s)))
                    + List.length
                        (filter (fun x => Nat.eqb (wc_ref x) r)
                           (getDirtyWorkingCopies target
                              (will_run_state (ReqMove source target overwrite) s))))%nat).
  { unfold prelude, resolved.
    rewrite count_app, count_soft_calls, filter_app, length_app. reflexivity. }
  destruct (invoke_run (ReqMove source target overwrite) s)
    as [done w' err later Hsplit|err x Hans|st' x Hans]; cbn [trace];
    rewrite count_app, Hpre, count_none; try lia; not_in_trace.
Qed.

(** C10.  In a move, a dirty working copy that matches both the source and
    the target the way the resolver matches (its resource is the resource,
    or lies below it where the file service can handle the resource) has
    [revert({ soft: true })] called on it twice: the two lists are
    concatenated as they are.  Twice at least, and no more than twice where
    each working copy is registered once. *)
Theorem C10_move_reverts_twice (source target : URI)
    (overwrite : option bool) (s : State W) (w : WorkingCopy) :
  In w (workingCopies s) ->
  isDirty w = true ->
  (resource w = source \/
   (canHandleResource
      (world (will_run_state (ReqMove source target overwrite) s)) source = true
    /\ descendant_of (resource w) source)) ->
  (resource w = target \/
   (canHandleResource
      (world (will_run_state (ReqMove source target overwrite) s)) target = true
    /\ descendant_of (resource w) target)) ->
  (2 <= count (is_soft_revert_of (wc_ref w))
              (trace (move source target overwrite s)))%nat
  /\ (NoDup (map wc_ref (workingCopies s)) ->
      count (is_soft_revert_of (wc_ref w))
            (trace (move source target overwrite s)) = 2%nat).
Proof.
  intros Hreg Hdirty Hsrc Htgt.
  set (s1 := will_run_state (ReqMove source target overwrite) s) in *.
  assert (Hs : In w (getDirtyWorkingCopies source s1))
    by (apply getDirtyWorkingCopies_In; auto).
  assert (Ht : In w (getDirtyWorkingCopies target s1))
    by (apply getDirtyWorkingCopies_In; auto).
  rewrite move_soft_reverts. fold s1. split.
  - pose proof (count_ref_at_least _ w Hs). pose proof (count_ref_at_least _ w Ht).
    lia.
  - intros Hnd.
    rewrite (count_ref_unique _ w (getDirtyWorkingCopies_NoDup source s1 Hnd) Hs).
    rewrite (count_ref_unique _ w (getDirtyWorkingCopies_NoDup target s1 Hnd) Ht).
    reflexivity.
Qed.

End Reverts.

(** ** The order of the phases *)

Lemma before_no_q (p q : Event -> bool) (t : list Event) :
  (forall e, In e t -> q e = false) -> before p q t.
Proof.
  intros H. rewrite <- (app_nil_r t). apply before_app; [exact H|].
  intros e [].
Qed.

Lemma before_no_p (p q : Event -> bool) (t : list Event) :
  (forall e, In e t -> p e = false) -> before p q t.
Proof.
  intros H. change t with ([] ++ t)%list. apply before_app; [|exact H].
  intros e [].
Qed.

Section Phases.
Context {W : Type}.
Context {FS : IFileService W} {LS : Listeners W} {RT : WorkingCopyRuntime W}.

(** C3.  In every invocation the will-run broadcast is over before any
    revert starts and before the disk mutation is issued, every event of a
    revert lies before the call of the file service, and once that call is
    issued the revert of every working copy that was looked up has been
    called and has resolved. *)
Theorem C3_will_run_then_reverts_then_disk (req : Request) (s : State W) :
  In (EvFireAsyncDone onWillRunWorkingCopyFileOperation
        (descriptor req (correlationIds s)))
     (trace (invoke req s))
  /\ before (is_fire_done onWillRunWorkingCopyFileOperation) is_revert
            (trace (invoke req s))
  /\ before (is_fire_done onWillRunWorkingCopyFileOperation) is_fs_call
            (trace (invoke req s))
  /\ before is_revert is_fs_call (trace (invoke req s))
  /\ (forall c, In (EvFsCall c) (trace (invoke req s)) ->
      forall w, In w (resolved req s) ->
        In (EvRevertCall w true) (trace (invoke req s)) /\
        In (EvRevertResolved w) (trace (invoke req s))).
Proof.
  split; [|split; [|split; [|split]]].
  - destruct (invoke_run req s)
      as [done w' err later Hsplit|err x Hans|st' x Hans];
      cbn [trace]; unfold prelude; rewrite !in_app_iff; simpl; auto.
  - destruct (invoke_run req s)
      as [done w' err later Hsplit|err x Hans|st' x Hans];
      cbn [trace]; unfold prelude; rewrite <- app_assoc;
      apply before_app; not_in_trace.
  - destruct (invoke_run req s)
      as [done w' err later Hsplit|err x Hans|st' x Hans];
      cbn [trace]; unfold prelude; rewrite <- app_assoc;
      apply before_app; not_in_trace.
  - destruct (invoke_run req s)
      as [done w' err later Hsplit|err x Hans|st' x Hans];
      cbn [trace].
    + apply before_no_q. not_in_trace.
    + rewrite app_assoc. apply before_app; not_in_trace.
    + rewrite app_assoc. apply before_app; not_in_trace.
  - intros c Hc w Hw. split.
    + apply revert_call_invoke. auto.
    + apply (issued_after_reverts req s c Hc). exact Hw.
Qed.

(** C9.  When a revert rejects, the invocation throws that error, the
    file service is not called, and neither did-fail nor did-run is
    fired. *)
Theorem C9_revert_rejection_stops (req : Request) (s : State W)
    (w : WorkingCopy) (err : JSError) :
  In (EvRevertRejected w err) (trace (invoke req s)) ->
  outcome (invoke req s) = Throw err
  /\ (forall c, ~ In (EvFsCall c) (trace (invoke req s)))
  /\ (forall data,
        ~ In (EvFireAsync onDidFailWorkingCopyFileOperation data)
             (trace (invoke req s)) /\
        ~ In (EvFireAsync onDidRunWorkingCopyFileOperation data)
             (trace (invoke req s))).
Proof.
  destruct (invoke_run req s)
    as [done w' err' later Hsplit|err' x Hans|st' x Hans];
    cbn [trace outcome]; intros H; in_trace H; try discriminate H.
  inversion H; subst. split; [reflexivity|].
  split; [intros c Hc|intros data; split; intros Hc];
    in_trace Hc; discriminate Hc.
Qed.

Lemma descriptor_correlationId (req : Request) (n : Z) :
  get_prop (descriptor req n) "correlationId" = Some (JNumber n).
Proof. destruct req; reflexivity. Qed.

(** C4.  When the call of the file service throws, did-fail is fired with
    the event object of the will-run broadcast (same correlation id, same
    operation, same resources), the broadcast is awaited and is the last
    thing the invocation does, the invocation throws the error of the
    file service, and the working copies that were reverted stay clean. *)
Theorem C4_delegate_failure (req : Request) (s : State W)
    (c : FsCall) (err : JSError) :
  In (EvFsRejected c err) (trace (invoke req s)) ->
  outcome (invoke req s) = Throw err
  /\ (exists t0,
        trace (invoke req s) =
        (t0 ++ [ EvFsRejected c err;
                 EvFireAsync onDidFailWorkingCopyFileOperation
                   (descriptor req (correlationIds s));
                 EvFireAsyncDone onDidFailWorkingCopyFileOperation
                   (descriptor req (correlationIds s)) ])%list)
  /\ In (EvFireAsync onWillRunWorkingCopyFileOperation
           (descriptor req (correlationIds s)))
        (trace (invoke req s))
  /\ get_prop (descriptor req (correlationIds s)) "correlationId"
     = Some (JNumber (correlationIds s))
  /\ (forall w, In w (resolved req s) ->
        In (EvRevertResolved w) (trace (invoke req s)) /\
        (In w (workingCopies s) ->
         In (markClean w) (workingCopies (final (invoke req s)))) /\
        (forall x, In x (workingCopies (final (invoke req s))) ->
                   wc_ref x = wc_ref w -> isDirty x = false)).
Proof.
  intros H.
  assert (Hcall : In (EvFsCall (request_call req)) (trace (invoke req s))).
  { revert H.
    destruct (invoke_run req s)
      as [done w' err' later Hsplit|err' x Hans|st' x Hans];
      cbn [trace]; intros H; in_trace H; try discriminate H.
    rewrite !in_app_iff. simpl. auto. }
  pose proof (issued_after_reverts req s _ Hcall) as [_ Hall].
  split; [|split; [|split; [|split]]]; try exact Hall.
  - revert H.
    destruct (invoke_run req s)
      as [done w' err' later Hsplit|err' x Hans|st' x Hans];
      cbn [trace outcome]; intros H; in_trace H; try discriminate H.
    now inversion H.
  - revert H. clear Hcall Hall.
    destruct (invoke_run req s)
      as [done w' err' later Hsplit|err' x Hans|st' x Hans];
      cbn [trace]; intros H; in_trace H; try discriminate H.
    inversion H; subst.
    exists (prelude req s ++ map EvRevertResolved (settle_list req s)
              ++ [EvFsCall (request_call req)])%list.
    rewrite <- !app_assoc. reflexivity.
  - destruct (invoke_run req s)
      as [done w' err' later Hsplit|err' x Hans|st' x Hans];
      cbn [trace]; unfold prelude; rewrite !in_app_iff; simpl; auto.
  - apply descriptor_correlationId.
Qed.

(** C5.  Once the file service has been called, exactly one of did-run
    and did-fail is fired, once: did-run exactly when the call resolved,
    did-fail exactly when it threw; and it is fired after the attempt. *)
Theorem C5_did_run_xor_did_fail (req : Request) (s : State W) (c : FsCall) :
  In (EvFsCall c) (trace (invoke req s)) ->
  (count (is_fire onDidRunWorkingCopyFileOperation) (trace (invoke req s))
   + count (is_fire onDidFailWorkingCopyFileOperation) (trace (invoke req s))
   = 1)%nat
  /\ (count (is_fire onDidRunWorkingCopyFileOperation) (trace (invoke req s))
      = 1%nat
      <-> exists st, In (EvFsResolved c st) (trace (invoke req s)))
  /\ (count (is_fire onDidFailWorkingCopyFileOperation) (trace (invoke req s))
      = 1%nat
      <-> exists err, In (EvFsRejected c err) (trace (invoke req s)))
  /\ before is_fs_settled (is_fire onDidRunWorkingCopyFileOperation)
            (trace (invoke req s))
  /\ before is_fs_settled (is_fire onDidFailWorkingCopyFileOperation)
            (trace (invoke req s)).
Proof.
  destruct (invoke_run req s)
    as [done w' err' later Hsplit|err' x Hans|st' x Hans];
    cbn [trace]; intros H.
  - in_trace H; discriminate H.
  - assert (Hc : c = request_call req)
      by (in_trace H; try discriminate H; now inversion H).
    subst c.
    assert (Hrun : count (is_fire onDidRunWorkingCopyFileOperation)
               (prelude req s ++ map EvRevertResolved (settle_list req s) ++
                [EvFsCall (request_call req);
                 EvFsRejected (request_call req) err';
                 EvFireAsync onDidFailWorkingCopyFileOperation
                   (descriptor req (correlationIds s));
                 EvFireAsyncDone onDidFailWorkingCopyFileOperation
                   (descriptor req (correlationIds s))]) = 0%nat)
      by (apply count_none; not_in_trace).
    assert (Hfail : count (is_fire onDidFailWorkingCopyFileOperation)
               (prelude req s ++ map EvRevertResolved (settle_list req s) ++
                [EvFsCall (request_call req);
                 EvFsRejected (request_call req) err';
                 EvFireAsync onDidFailWorkingCopyFileOperation
                   (descriptor req (correlationIds s));
                 EvFireAsyncDone onDidFailWorkingCopyFileOperation
                   (descriptor req (correlationIds s))]) = 1%nat).
    { rewrite !count_app, !count_none by not_in_trace. reflexivity. }
    rewrite Hrun, Hfail.
    split; [reflexivity|]. split; [|split; [|split]].
    + split; [discriminate|]. intros [st Hst]. in_trace Hst; discriminate Hst.
    + split; [|reflexivity]. intros _. exists err'.
      rewrite !in_app_iff. simpl. auto.
    + apply before_no_q. not_in_trace.
    + rewrite app_assoc.
      change [EvFsCall (request_call req);
              EvFsRejected (request_call req) err';
              EvFireAsync onDidFailWorkingCopyFileOperation
                (descriptor req (correlationIds s));
              EvFireAsyncDone onDidFailWorkingCopyFileOperation
                (descriptor req (correlationIds s))]
        with ([EvFsCall (request_call req);
               EvFsRejected (request_call req) err']
              ++ [EvFireAsync onDidFailWorkingCopyFileOperation
                    (descriptor req (correlationIds s));
                  EvFireAsyncDone onDidFailWorkingCopyFileOperation
                    (descriptor req (correlationIds s))])%list.
      rewrite app_assoc. apply before_app; not_in_trace.
  - assert (Hc : c = request_call req)
      by (in_trace H; try discriminate H; now inversion H).
    subst c.
    assert (Hfail : count (is_fire onDidFailWorkingCopyFileOperation)
               (prelude req s ++ map EvRevertResolved (settle_list req s) ++
                [EvFsCall (request_call req);
                 EvFsResolved (request_call req) st';
                 EvFireAsync onDidRunWorkingCopyFileOperation
                   (descriptor req (correlationIds s));
                 EvFireAsyncDone onDidRunWorkingCopyFileOperation
                   (descriptor req (correlationIds s))]) = 0%nat)
      by (apply count_none; not_in_trace).
    assert (Hrun : count (is_fire onDidRunWorkingCopyFileOperation)
               (prelude req s ++ map EvRevertResolved (settle_list req s) ++
                [EvFsCall (request_call req);
                 EvFsResolved (request_call req) st';
                 EvFireAsync onDidRunWorkingCopyFileOperation
                   (descriptor req (correlationIds s));
                 EvFireAsyncDone onDidRunWorkingCopyFileOperation
                   (descriptor req (correlationIds s))]) = 1%nat).
    { rewrite !count_app, !count_none by not_in_trace. reflexivity. }
    rewrite Hrun, Hfail.
    split; [reflexivity|]. split; [|split; [|split]].
    + split; [|reflexivity]. intros _. exists st'.
      rewrite !in_app_iff. simpl. auto.
    + split; [discriminate|]. intros [e He]. in_trace He; discriminate He.
    + rewrite app_assoc.
      change [EvFsCall (request_call req);
              EvFsResolved (request_call req) st';
              EvFireAsync onDidRunWorkingCopyFileOperation
                (descriptor req (correlationIds s));
              EvFireAsyncDone onDidRunWorkingCopyFileOperation
                (descriptor req (correlationIds s))]
        with ([EvFsCall (request_call req);
               EvFsResolved (request_call req) st']
              ++ [EvFireAsync onDidRunWorkingCopyFileOperation
                    (descriptor req (correlationIds s));
                  EvFireAsyncDone onDidRunWorkingCopyFileOperation
                    (descriptor req (correlationIds s))])%list.
      rewrite app_assoc. apply before_app; not_in_trace.
    + apply before_no_q. not_in_trace.
Qed.

End Phases.

(** ** Event objects and results *)

Lemma moveOrCopy_event_no_stat (n : Z) (mv : bool) (target source : URI)
    (st : IFileStatWithMetadata) :
  ~ carries_stat (moveOrCopy_event n mv target source) st.
Proof.
  intros [k H]. unfold moveOrCopy_event in H. simpl in H.
  destruct (String.eqb k "correlationId"); [discriminate|].
  destruct (String.eqb k "operation"); [discriminate|].
  destruct (String.eqb k "target"); [discriminate|].
  destruct (String.eqb k "source"); discriminate.
Qed.

Section Results.
Context {W : Type}.
Context {FS : IFileService W} {LS : Listeners W} {RT : WorkingCopyRuntime W}.

(** Every event object that an invocation hands to an emitter is the one
    it built from its correlation id. *)
Lemma fired_descriptor (req : Request) (s : State W)
    (e : Emitter) (data : JSObject) :
  In (EvFireAsync e data) (trace (invoke req s)) ->
  data = descriptor req (correlationIds s).
Proof.
  destruct (invoke_run req s)
    as [done w' err' later Hsplit|err' x Hans|st' x Hans];
    cbn [trace]; intros H; in_trace H; try discriminate H;
    now inversion H.
Qed.

(** C8.  When the file service resolves a move or a copy with the
    metadata [st], did-run is fired with the event object of the will-run
    broadcast, an object with the correlation id, the operation, the target
    and the source and with no file metadata in it, and the invocation
    returns [st]. *)
Theorem C8_did_run_then_return (source target : URI) (mv : bool)
    (overwrite : option bool) (s : State W)
    (c : FsCall) (st : IFileStatWithMetadata) :
  In (EvFsResolved c (Some st))
     (trace (moveOrCopy source target mv overwrite s)) ->
  outcome (moveOrCopy source target mv overwrite s) = Return st
  /\ In (EvFireAsync onWillRunWorkingCopyFileOperation
           (moveOrCopy_event (correlationIds s) mv target source))
        (trace (moveOrCopy source target mv overwrite s))
  /\ In (EvFireAsync onDidRunWorkingCopyFileOperation
           (moveOrCopy_event (correlationIds s) mv target source))
        (trace (moveOrCopy source target mv overwrite s))
  /\ (forall data,
        In (EvFireAsync onDidRunWorkingCopyFileOperation data)
           (trace (moveOrCopy source target mv overwrite s)) ->
        data = moveOrCopy_event (correlationIds s) mv target source)
  /\ (forall st',
        ~ carries_stat
            (moveOrCopy_event (correlationIds s) mv target source) st').
Proof.
  set (req := if mv then ReqMove source target overwrite
              else ReqCopy source target overwrite).
  assert (Hinv : invoke req = fmap Some (moveOrCopy source target mv overwrite))
    by (subst req; destruct mv; reflexivity).
  assert (Hdesc : descriptor req (correlationIds s)
                  = moveOrCopy_event (correlationIds s) mv target source)
    by (subst req; destruct mv; reflexivity).
  rewrite <- (fmap_trace Some (moveOrCopy source target mv overwrite)).
  rewrite <- Hinv, <- Hdesc.
  assert (Hout : forall a, outcome (invoke req s) = Return (Some a) ->
                           outcome (moveOrCopy source target mv overwrite s)
                           = Return a).
  { intros a. rewrite Hinv, fmap_outcome.
    destruct (outcome (moveOrCopy source target mv overwrite s));
      intros H; now inversion H. }
  intros H.
  split; [|split; [|split; [|split]]].
  - apply Hout. revert H.
    destruct (invoke_run req s)
      as [done w' err' later Hsplit|err' x Hans|st' x Hans];
      cbn [trace outcome]; intros H; in_trace H; try discriminate H.
    now inversion H.
  - destruct (invoke_run req s)
      as [done w' err' later Hsplit|err' x Hans|st' x Hans];
      cbn [trace]; unfold prelude; rewrite !in_app_iff; simpl; auto.
  - revert H.
    destruct (invoke_run req s)
      as [done w' err' later Hsplit|err' x Hans|st' x Hans];
      cbn [trace]; intros H; in_trace H; try discriminate H.
    rewrite !in_app_iff. simpl. auto 10.
  - intros data Hd. apply (fired_descriptor req s _ _ Hd).
  - intros st'. rewrite Hdesc. apply moveOrCopy_event_no_stat.
Qed.

End Results.

(** ** Correlation ids *)

Lemma number_succ_exact (n : Z) : n < MAX_EXACT -> number_succ n = n + 1.
Proof.
  intros H. unfold number_succ.
  destruct (Z.ltb_spec n MAX_EXACT); [reflexivity | lia].
Qed.

Lemma number_succ_saturated : number_succ MAX_EXACT = MAX_EXACT.
Proof. reflexivity. Qed.

Lemma ids_from_lower (c : Z) (n : nat) : Forall (fun i => c <= i) (ids_from c n).
Proof.
  revert c. induction n as [|n IH]; intros c; simpl; constructor; [lia|].
  eapply Forall_impl; [|apply IH]. simpl. intros; lia.
Qed.

Lemma ids_from_sorted (c : Z) (n : nat) : StronglySorted Z.lt (ids_from c n).
Proof.
  revert c. induction n as [|n IH]; intros c; simpl; constructor; [apply IH|].
  eapply Forall_impl; [|apply ids_from_lower]. simpl. intros; lia.
Qed.

Lemma sorted_NoDup (l : list Z) : StronglySorted Z.lt l -> NoDup l.
Proof.
  induction 1 as [|a l Hs IH Hall]; constructor; [|exact IH].
  intros Hin. rewrite Forall_forall in Hall. specialize (Hall a Hin). lia.
Qed.

Section CorrelationIds.
Context {W : Type}.
Context {FS : IFileService W} {LS : Listeners W} {RT : WorkingCopyRuntime W}.

(** [this.correlationIds++], once per invocation. *)
Lemma invoke_counter (req : Request) (s : State W) :
  correlationIds (final (invoke req s)) = number_succ (correlationIds s).
Proof.
  destruct (invoke_run req s)
    as [done w' err' later Hsplit|err' x Hans|st' x Hans];
    cbn [final]; unfold after_broadcast, disk_state; cbn [correlationIds];
    now rewrite reverted_all_ids.
Qed.

Lemma invoke_will_run_id (req : Request) (s : State W) :
  will_run_id (invoke req s) = Some (correlationIds s).
Proof.
  unfold will_run_id.
  destruct (invoke_run req s)
    as [done w' err' later Hsplit|err' x Hans|st' x Hans];
    cbn [trace]; unfold prelude; cbn [app];
    now rewrite descriptor_correlationId.
Qed.

(** The broadcasts of one invocation all carry its correlation id. *)
Lemma invoke_one_id (req : Request) (s : State W) (e : Emitter) (data : JSObject) :
  In (EvFireAsync e data) (trace (invoke req s)) ->
  Some (correlationIds s) = will_run_id (invoke req s) /\
  get_prop data "correlationId" = Some (JNumber (correlationIds s)).
Proof.
  intros H. rewrite (fired_descriptor req s e data H).
  now rewrite invoke_will_run_id, descriptor_correlationId.
Qed.

(** C7.  As long as the counter stays within the integers that a number
    holds exactly, the invocations made one after the other on a service
    get the ids [c], [c + 1], [c + 2], ... from the counter [c] on: unique
    and strictly increasing in the order of the invocations.  The will-run,
    did-run and did-fail broadcasts of an invocation all carry its id. *)
Theorem C7_ids_increase_while_exact (reqs : list Request) (s : State W) :
  correlationIds s + Z.of_nat (List.length reqs) <= MAX_EXACT ->
  map will_run_id (invoke_all reqs s)
    = map Some (ids_from (correlationIds s) (List.length reqs))
  /\ StronglySorted Z.lt (ids_from (correlationIds s) (List.length reqs))
  /\ NoDup (ids_from (correlationIds s) (List.length reqs))
  /\ Forall (fun r =>
               exists n, will_run_id r = Some n /\
               forall e data, In (EvFireAsync e data) (trace r) ->
                              get_prop data "correlationId" = Some (JNumber n))
            (invoke_all reqs s).
Proof.
  intros Hbound.
  split; [|split; [apply ids_from_sorted|split;
                   [apply sorted_NoDup, ids_from_sorted|]]].
  - revert s Hbound. induction reqs as [|req reqs IH]; intros s Hbound.
    + reflexivity.
    + cbn [invoke_all List.length ids_from map].
      rewrite invoke_will_run_id. f_equal.
      cbn [List.length] in Hbound.
      rewrite <- (number_succ_exact (correlationIds s)) by lia.
      rewrite <- (invoke_counter req s). apply IH.
      rewrite invoke_counter, number_succ_exact by lia. lia.
  - clear Hbound. revert s. induction reqs as [|req reqs IH]; intros s.
    + constructor.
    + cbn [invoke_all]. constructor; [|apply IH].
      exists (correlationIds s). split; [apply invoke_will_run_id|].
      intros e data H. apply (invoke_one_id req s e data H).
Qed.

(** After [n] deletions on a fresh service the counter holds [n], up to
    [2^53], where it stays. *)
Lemma counter_after (r : URI) (n : N) (s : State W) :
  correlationIds s = 0 ->
  correlationIds
    (N.iter n (fun s' => final (invoke (ReqDelete r None) s')) s)
  = Z.min (Z.of_N n) MAX_EXACT.
Proof.
  intros H0. induction n as [|n IH] using N.peano_ind.
  - simpl. rewrite H0. reflexivity.
  - rewrite N.iter_succ, invoke_counter, IH, N2Z.inj_succ.
    unfold number_succ.
    destruct (Z.ltb_spec (Z.min (Z.of_N n) MAX_EXACT) MAX_EXACT); lia.
Qed.

End CorrelationIds.

(** ** The scenarios, run *)

Module ScenarioFacts.
Import TestServices Scenarios.

Lemma copies_NoDup : NoDup (map wc_ref copies).
Proof.
  simpl. repeat constructor; simpl; intros H;
    repeat (destruct H as [H|H]; [discriminate H|]); exact H.
Qed.

Example delete_file_txt_trace :
  trace (delete (file "/a/file.txt") None s0) =
  [ EvFireAsync onWillRunWorkingCopyFileOperation
      (delete_event 0 (file "/a/file.txt"));
    EvFireAsyncDone onWillRunWorkingCopyFileOperation
      (delete_event 0 (file "/a/file.txt"));
    EvRevertCall file_txt true;
    EvRevertResolved file_txt;
    EvFsCall (FsDel (file "/a/file.txt") None);
    EvFsResolved (FsDel (file "/a/file.txt") None) None;
    EvFireAsync onDidRunWorkingCopyFileOperation
      (delete_event 0 (file "/a/file.txt"));
    EvFireAsyncDone onDidRunWorkingCopyFileOperation
      (delete_event 0 (file "/a/file.txt")) ].
Proof. reflexivity. Qed.

Example delete_file_txt_registry :
  workingCopies (final (delete (file "/a/file.txt") None s0)) =
  [markClean file_txt; deep; flat_child; z_old].
Proof. reflexivity. Qed.

(** A move of [/a] to [/z] reverts the dirty copies below the source and
    those below the target. *)
Example move_a_z_reverts :
  revert_targets (trace (move (file "/a") (file "/z") None s0))
  = [file_txt; deep; z_old].
Proof. reflexivity. Qed.

(** A copy leaves the dirty copies below the source alone. *)
Example copy_a_z_reverts :
  revert_targets (trace (copy (file "/a") (file "/z") None s0)) = [z_old].
Proof. reflexivity. Qed.

(** [before] does tell traces apart: the call of the file service does not
    come before the reverts. *)
Example before_is_not_vacuous :
  ~ before is_fs_call is_revert
      (trace (delete (file "/a/file.txt") None s0)).
Proof.
  intros H.
  specialize (H 4%nat 2%nat (EvFsCall (FsDel (file "/a/file.txt") None))
                (EvRevertCall file_txt true) eq_refl eq_refl eq_refl eq_refl).
  lia.
Qed.

(** The counter of a fresh service does reach [2^53]: after that many
    deletions. *)
Lemma saturated_counter_reachable :
  correlationIds
    (N.iter (2 ^ 53)
       (fun s' => final (invoke (ReqDelete (file "/a") None) s')) s0)
  = correlationIds s_saturated.
Proof. rewrite counter_after by reflexivity. reflexivity. Qed.

Lemma C1_witness :
  outcome (delete (file "/a") None s0) = Return tt /\
  In (EvRevertCall deep true) (trace (delete (file "/a") None s0)) /\
  In (EvRevertResolved deep) (trace (delete (file "/a") None s0)) /\
  In (markClean deep) (workingCopies (final (delete (file "/a") None s0))) /\
  (forall x, In x (workingCopies (final (delete (file "/a") None s0))) ->
             wc_ref x = wc_ref deep -> isDirty x = false).
Proof.
  split; [reflexivity|].
  apply (C1_delete_clears_dirty (file "/a") None s0 deep).
  - reflexivity.
  - simpl. auto.
  - reflexivity.
  - right. split; [reflexivity|]. split; [reflexivity|].
    exists "b", ["c"]. reflexivity.
Defined.

(** Under a scheme that the file service does not handle as a tree,
    [delete] returns and a dirty working copy below the deleted resource is
    not reverted and stays dirty. *)
Lemma C1_counterexample :
  outcome (delete (mem "/a") None s0) = Return tt /\
  In flat_child (workingCopies s0) /\
  isDirty flat_child = true /\
  descendant_of (resource flat_child) (mem "/a") /\
  ~ In (EvRevertCall flat_child true) (trace (delete (mem "/a") None s0)) /\
  (exists x, In x (workingCopies (final (delete (mem "/a") None s0))) /\
             wc_ref x = wc_ref flat_child /\ isDirty x = true).
Proof.
  split; [reflexivity|]. split; [simpl; auto|]. split; [reflexivity|].
  split; [|split].
  - split; [reflexivity|]. exists "b", []. reflexivity.
  - intros H. vm_compute in H.
    repeat (destruct H as [H|H]; [discriminate H|]). exact H.
  - exists flat_child. split; [|split; reflexivity].
    vm_compute. auto.
Qed.

Lemma C10_witness :
  In deep (workingCopies s0) /\
  isDirty deep = true /\
  descendant_of (resource deep) (file "/a") /\
  descendant_of (resource deep) (file "/a/b") /\
  count (is_soft_revert_of (wc_ref deep))
        (trace (move (file "/a") (file "/a/b") None s0)) = 2%nat.
Proof.
  assert (H1 : In deep (workingCopies s0)) by (simpl; auto).
  assert (H2 : descendant_of (resource deep) (file "/a"))
    by (split; [reflexivity | exists "b", ["c"]; reflexivity]).
  assert (H3 : descendant_of (resource deep) (file "/a/b"))
    by (split; [reflexivity | exists "c", []; reflexivity]).
  split; [exact H1|]. split; [reflexivity|]. split; [exact H2|].
  split; [exact H3|].
  apply (C10_move_reverts_twice (file "/a") (file "/a/b") None s0 deep).
  - exact H1.
  - reflexivity.
  - right. split; [reflexivity | exact H2].
  - right. split; [reflexivity | exact H3].
  - exact copies_NoDup.
Defined.

(** Under a scheme that the file service does not handle as a tree, a
    dirty working copy below both the source and the target of a move is
    not reverted at all. *)
Lemma C10_counterexample :
  In flat_child (workingCopies s0) /\
  isDirty flat_child = true /\
  descendant_of (resource flat_child) (mem "/a") /\
  descendant_of (resource flat_child) (mem "/") /\
  count (is_soft_revert_of (wc_ref flat_child))
        (trace (move (mem "/a") (mem "/") None s0)) = 0%nat.
Proof.
  split; [simpl; auto|]. split; [reflexivity|]. split; [|split].
  - split; [reflexivity|]. exists "b", []. reflexivity.
  - split; [reflexivity|]. exists "a", ["b"]. reflexivity.
  - reflexivity.
Qed.

Lemma C9_witness :
  In (EvRevertRejected deep (mkError "revert failed"))
     (trace (invoke (ReqDelete (file "/a") None) s_failing)) /\
  outcome (invoke (ReqDelete (file "/a") None) s_failing)
    = Throw (mkError "revert failed").
Proof.
  assert (H : In (EvRevertRejected deep (mkError "revert failed"))
                 (trace (invoke (ReqDelete (file "/a") None) s_failing)))
    by (simpl; auto 10).
  split; [exact H|].
  exact (proj1 (C9_revert_rejection_stops (ReqDelete (file "/a") None)
                  s_failing deep (mkError "revert failed") H)).
Defined.

Lemma C4_witness :
  In (EvFsRejected (FsDel (file "/z/old.txt") None) ENOENT)
     (trace (invoke (ReqDelete (file "/z/old.txt") None) s0)) /\
  outcome (invoke (ReqDelete (file "/z/old.txt") None) s0) = Throw ENOENT /\
  In (markClean z_old)
     (workingCopies (final (invoke (ReqDelete (file "/z/old.txt") None) s0))).
Proof.
  assert (H : In (EvFsRejected (FsDel (file "/z/old.txt") None) ENOENT)
                 (trace (invoke (ReqDelete (file "/z/old.txt") None) s0)))
    by (simpl; auto 10).
  split; [exact H|].
  destruct (C4_delegate_failure (ReqDelete (file "/z/old.txt") None) s0
              (FsDel (file "/z/old.txt") None) ENOENT H)
    as (Hout & _ & _ & _ & Hclean).
  split; [exact Hout|].
  apply (Hclean z_old); simpl; auto.
Defined.

Lemma C5_witness :
  In (EvFsCall (FsMove (file "/a/file.txt") (file "/z/new.txt") None))
     (trace (invoke (ReqMove (file "/a/file.txt") (file "/z/new.txt") None) s0))
  /\
  (count (is_fire onDidRunWorkingCopyFileOperation)
     (trace (invoke (ReqMove (file "/a/file.txt") (file "/z/new.txt") None) s0))
   + count (is_fire onDidFailWorkingCopyFileOperation)
       (trace (invoke (ReqMove (file "/a/file.txt") (file "/z/new.txt") None) s0))
   = 1)%nat.
Proof.
  assert (H : In (EvFsCall (FsMove (file "/a/file.txt") (file "/z/new.txt") None))
                 (trace (invoke (ReqMove (file "/a/file.txt")
                                         (file "/z/new.txt") None) s0)))
    by (simpl; auto 10).
  split; [exact H|].
  exact (proj1 (C5_did_run_xor_did_fail _ s0 _ H)).
Defined.

Lemma C8_witness :
  In (EvFsResolved (FsCopy (file "/a/file.txt") (file "/z/new.txt") None)
                   (Some (test_stat (file "/z/new.txt"))))
     (trace (moveOrCopy (file "/a/file.txt") (file "/z/new.txt") false None s0))
  /\ outcome (moveOrCopy (file "/a/file.txt") (file "/z/new.txt") false None s0)
     = Return (test_stat (file "/z/new.txt")).
Proof.
  assert (H : In (EvFsResolved
                    (FsCopy (file "/a/file.txt") (file "/z/new.txt") None)
                    (Some (test_stat (file "/z/new.txt"))))
                 (trace (moveOrCopy (file "/a/file.txt") (file "/z/new.txt")
                                    false None s0)))
    by (simpl; auto 10).
  split; [exact H|].
  exact (proj1 (C8_did_run_then_return _ _ false None s0 _ _ H)).
Defined.

(** The file service resolves the move with some metadata, the invocation
    returns it, and the event object of did-run does not hold it. *)
Lemma C8_counterexample :
  outcome (move (file "/a/file.txt") (file "/z/new.txt") None s0)
    = Return (test_stat (file "/z/new.txt")) /\
  In (EvFsResolved (FsMove (file "/a/file.txt") (file "/z/new.txt") None)
                   (Some (test_stat (file "/z/new.txt"))))
     (trace (move (file "/a/file.txt") (file "/z/new.txt") None s0)) /\
  In (EvFireAsync onDidRunWorkingCopyFileOperation
        (moveOrCopy_event 0 true (file "/z/new.txt") (file "/a/file.txt")))
     (trace (move (file "/a/file.txt") (file "/z/new.txt") None s0)) /\
  (forall data,
     In (EvFireAsync onDidRunWorkingCopyFileOperation data)
        (trace (move (file "/a/file.txt") (file "/z/new.txt") None s0)) ->
     ~ carries_stat data (test_stat (file "/z/new.txt"))).
Proof.
  split; [reflexivity|]. split; [simpl; auto 10|]. split; [simpl; auto 10|].
  intros data H. simpl in H.
  repeat (destruct H as [H|H]; [try discriminate H|]); [|contradiction].
  inversion H. apply moveOrCopy_event_no_stat.
Qed.

Lemma C7_witness :
  map will_run_id
      (invoke_all [ ReqDelete (file "/a/file.txt") None;
                    ReqMove (file "/a") (file "/z") None;
                    ReqCopy (file "/nowhere") (file "/z") None ] s0)
  = [Some 0; Some 1; Some 2].
Proof.
  refine (proj1 (C7_ids_increase_while_exact
                   [ ReqDelete (file "/a/file.txt") None;
                     ReqMove (file "/a") (file "/z") None;
                     ReqCopy (file "/nowhere") (file "/z") None ] s0 _)).
  vm_compute. discriminate.
Defined.

(** Two invocations made once the counter is at [2^53] get the same id. *)
Lemma C7_counterexample :
  map will_run_id
      (invoke_all [ ReqDelete (file "/a") None;
                    ReqDelete (file "/a/b") None ] s_saturated)
  = [Some MAX_EXACT; Some MAX_EXACT]
  /\ ~ MAX_EXACT < MAX_EXACT
  /\ ~ NoDup [MAX_EXACT; MAX_EXACT].
Proof.
  split; [vm_compute; reflexivity|]. split; [lia|].
  intros H. inversion H as [|? ? Hnotin _]. apply Hnotin. now left.
Qed.

End ScenarioFacts.

(** * Further properties of the service *)

(** ** The registry across an invocation *)

Section RegistryAcross.
Context {W : Type}.
Context {FS : IFileService W} {LS : Listeners W} {RT : WorkingCopyRuntime W}.

(** Where an element of the registry comes from, after some reverts. *)
Lemma registry_after (l : list WorkingCopy) (s : State W) (x : WorkingCopy) :
  In x (workingCopies (reverted_all l s)) ->
  exists y, In y (workingCopies s) /\
            ((x = y /\ ~ In (wc_ref y) (map wc_ref l)) \/
             (x = markClean y /\ In (wc_ref y) (map wc_ref l))).
Proof.
  rewrite reverted_all_registry. intros H. apply in_map_iff in H.
  destruct H as [y [Hy Hin]]. exists y. split; [exact Hin|].
  destruct (existsb (Nat.eqb (wc_ref y)) (map wc_ref l)) eqn:E.
  - right. split; [auto|]. apply existsb_exists in E.
    destruct E as [r [Hr Heq]]. apply Nat.eqb_eq in Heq. now subst r.
  - left. split; [auto|]. intros Hr.
    assert (E' : existsb (Nat.eqb (wc_ref y)) (map wc_ref l) = true).
    { apply existsb_exists. exists (wc_ref y). split; [exact Hr|].
      apply Nat.eqb_refl. }
    rewrite E' in E. discriminate.
Qed.

(** The registry an invocation leaves is the one it found, after the
    reverts that resolved: all of those it looked up once the file service
    has been called. *)
Lemma final_registry (req : Request) (s : State W) :
  exists l,
    workingCopies (final (invoke req s))
      = workingCopies (reverted_all l (will_run_state req s))
    /\ incl l (settle_list req s)
    /\ (forall w, In (EvRevertResolved w) (trace (invoke req s)) -> In w l)
    /\ (forall c, In (EvFsCall c) (trace (invoke req s)) ->
                  l = settle_list req s).
Proof.
  destruct (invoke_run req s)
    as [done w' err later Hsplit|err x Hans|st' x Hans]; cbn [final trace].
  - exists done. split; [reflexivity|]. split; [|split].
    + rewrite Hsplit. intros a Ha. apply in_or_app. now left.
    + intros w H. in_trace H; try discriminate H. inversion H. now subst.
    + intros c H. in_trace H; discriminate H.
  - exists (settle_list req s). split; [reflexivity|]. split; [|split].
    + apply incl_refl.
    + intros w H. in_trace H; try discriminate H. inversion H. now subst.
    + reflexivity.
  - exists (settle_list req s). split; [reflexivity|]. split; [|split].
    + apply incl_refl.
    + intros w H. in_trace H; try discriminate H. inversion H. now subst.
    + reflexivity.
Qed.

Lemma touched_resolved (req : Request) (s : State W) (y : WorkingCopy) :
  In (resource y) (touched_resources req) ->
  In y (workingCopies s) -> isDirty y = true ->
  In y (resolved req s).
Proof.
  intros Hr Hy Hd.
  assert (H : forall r, resource y = r ->
                In y (getDirtyWorkingCopies r (will_run_state req s))).
  { intros r Heq. apply getDirtyWorkingCopies_In. auto. }
  destruct req as [source target o|source target o|res o];
    unfold resolved; simpl in Hr.
  - apply in_or_app. destruct Hr as [Hr|[Hr|[]]]; [left|right]; now apply H.
  - destruct Hr as [Hr|[]]. now apply H.
  - destruct Hr as [Hr|[]]. now apply H.
Qed.

(** X1.  Once an invocation has called the file service, no working copy
    at a resource the operation is about is dirty: the source and the target
    of a move, the target of a copy, the resource of a delete, under any
    scheme. *)
Theorem X1_no_dirty_copy_at_touched (req : Request) (s : State W)
    (c : FsCall) (x : WorkingCopy) :
  In (EvFsCall c) (trace (invoke req s)) ->
  In x (workingCopies (final (invoke req s))) ->
  In (resource x) (touched_resources req) ->
  isDirty x = false.
Proof.
  intros Hc Hx Hr.
  destruct (final_registry req s) as (l & Hreg & _ & _ & Hall).
  rewrite (Hall c Hc) in Hreg. rewrite Hreg in Hx.
  destruct (registry_after _ _ _ Hx) as (y & Hy & [[-> Hnot]|[-> _]]);
    [|reflexivity].
  destruct (isDirty y) eqn:Hd; [|reflexivity].
  exfalso. apply Hnot. apply in_map. apply settle_list_In.
  now apply touched_resolved.
Qed.

(** X3.  A working copy whose reference is not among those the invocation
    looked up is left as it is. *)
Theorem X3_other_copies_untouched (req : Request) (s : State W)
    (w : WorkingCopy) :
  In w (workingCopies s) ->
  ~ In (wc_ref w) (map wc_ref (resolved req s)) ->
  In w (workingCopies (final (invoke req s))).
Proof.
  intros Hw Hnot.
  destruct (final_registry req s) as (l & Hreg & Hincl & _).
  rewrite Hreg, reverted_all_registry. cbn [will_run_state workingCopies].
  apply in_map_iff. exists w. split; [|exact Hw].
  destruct (existsb (Nat.eqb (wc_ref w)) (map wc_ref l)) eqn:E; [|reflexivity].
  exfalso. apply Hnot. apply existsb_exists in E.
  destruct E as [r [Hr Heq]]. apply Nat.eqb_eq in Heq. subst r.
  apply in_map_iff in Hr. destruct Hr as [y [Hy Hin]].
  apply in_map_iff. exists y. split; [exact Hy|].
  apply settle_list_In. now apply Hincl.
Qed.

(** X4.  When no working copy is dirty, an invocation calls no revert,
    leaves the registry as it is and does call the file service. *)
Theorem X4_nothing_dirty (req : Request) (s : State W) :
  dirtyWorkingCopies s = [] ->
  revert_targets (trace (invoke req s)) = []
  /\ count is_revert (trace (invoke req s)) = 0%nat
  /\ workingCopies (final (invoke req s)) = workingCopies s
  /\ In (EvFsCall (request_call req)) (trace (invoke req s)).
Proof.
  intros Hnone.
  assert (Hres : resolved req s = []).
  { unfold resolved, getDirtyWorkingCopies.
    replace (dirtyWorkingCopies (will_run_state req s)) with (@nil WorkingCopy)
      by (symmetry; exact Hnone).
    now destruct req. }
  assert (Hset : settle_list req s = []).
  { unfold settle_list. rewrite Hres.
    apply Permutation_nil, Permutation_sym, settle_order_perm. }
  split; [now rewrite revert_targets_invoke|].
  destruct (invoke_run req s)
    as [done w' err later Hsplit|err x Hans|st' x Hans];
    cbn [final trace]; unfold prelude, after_broadcast, disk_state;
    rewrite Hset in *; rewrite ?Hres; cbn [workingCopies].
  - destruct done; discriminate Hsplit.
  - split; [reflexivity|]. split; [reflexivity|]. simpl. auto.
  - split; [reflexivity|]. split; [reflexivity|]. simpl. auto.
Qed.

End RegistryAcross.

(** ** The counter across invocations *)

Lemma number_succ_ge (n : Z) : n <= number_succ n.
Proof. unfold number_succ. destruct (n <? MAX_EXACT); lia. Qed.

Lemma number_succ_min (n : Z) :
  n <= MAX_EXACT -> number_succ n = Z.min (n + 1) MAX_EXACT.
Proof.
  intros H. unfold number_succ.
  destruct (Z.ltb_spec n MAX_EXACT); lia.
Qed.

Section CounterAcross.
Context {W : Type}.
Context {FS : IFileService W} {LS : Listeners W} {RT : WorkingCopyRuntime W}.

(** X5.  Every invocation takes one id from the counter, whether it
    returns or throws: after [n] invocations a counter that was at [c] is at
    [c + n], or at [2^53] if that is less. *)
Theorem X5_counter_after_invocations (reqs : list Request) (s : State W) :
  correlationIds s <= MAX_EXACT ->
  correlationIds (state_after reqs s)
  = Z.min (correlationIds s + Z.of_nat (List.length reqs)) MAX_EXACT.
Proof.
  revert s. induction reqs as [|req reqs IH]; intros s Hc.
  - simpl. lia.
  - cbn [state_after List.length].
    rewrite IH; rewrite invoke_counter, number_succ_min by exact Hc; lia.
Qed.

Lemma counters_lower (reqs : list Request) (s : State W) :
  Forall (fun i => correlationIds s <= i) (counters reqs s).
Proof.
  revert s. induction reqs as [|req reqs IH]; intros s; simpl; constructor.
  - lia.
  - eapply Forall_impl; [|apply IH]. simpl. intros i Hi.
    rewrite invoke_counter in Hi.
    pose proof (number_succ_ge (correlationIds s)). lia.
Qed.

(** X6.  Whatever the counter is at, the ids of invocations made one after
    the other never decrease. *)
Theorem X6_ids_never_decrease (reqs : list Request) (s : State W) :
  map will_run_id (invoke_all reqs s) = map Some (counters reqs s)
  /\ StronglySorted Z.le (counters reqs s).
Proof.
  split.
  - revert s. induction reqs as [|req reqs IH]; intros s; simpl;
      [reflexivity|]. now rewrite invoke_will_run_id, IH.
  - revert s. induction reqs as [|req reqs IH]; intros s; simpl;
      constructor; [apply IH|].
    eapply Forall_impl; [|apply counters_lower]. simpl. intros i Hi.
    rewrite invoke_counter in Hi.
    pose proof (number_succ_ge (correlationIds s)). lia.
Qed.

End CounterAcross.

(** ** What an invocation does and does not do *)

Section Conduct.
Context {W : Type}.
Context {FS : IFileService W} {LS : Listeners W} {RT : WorkingCopyRuntime W}.

(** X7.  An invocation calls the file service at most once, with the
    resources, the overwrite flag and the delete options of its caller, and
    it calls it exactly when no revert rejected. *)
Theorem X7_one_call_with_callers_arguments (req : Request) (s : State W) :
  (count is_fs_call (trace (invoke req s)) <= 1)%nat
  /\ (forall c, In (EvFsCall c) (trace (invoke req s)) -> c = request_call req)
  /\ (count is_fs_call (trace (invoke req s)) = 1%nat <->
      forall w err, ~ In (EvRevertRejected w err) (trace (invoke req s))).
Proof.
  destruct (invoke_run req s)
    as [done w' err later Hsplit|err x Hans|st' x Hans]; cbn [trace].
  - assert (H0 : count is_fs_call
                   (prelude req s ++ map EvRevertResolved done
                      ++ [EvRevertRejected w' err]) = 0%nat)
      by (apply count_none; not_in_trace).
    rewrite H0. split; [lia|]. split.
    + intros c H. in_trace H; discriminate H.
    + split; [discriminate|]. intros H. exfalso. apply (H w' err).
      rewrite !in_app_iff. simpl. auto.
  - assert (H1 : count is_fs_call
                   (prelude req s ++ map EvRevertResolved (settle_list req s)
                      ++ [EvFsCall (request_call req);
                          EvFsRejected (request_call req) err;
                          EvFireAsync onDidFailWorkingCopyFileOperation
                            (descriptor req (correlationIds s));
                          EvFireAsyncDone onDidFailWorkingCopyFileOperation
                            (descriptor req (correlationIds s))]) = 1%nat).
    { rewrite !count_app, !count_none by not_in_trace. reflexivity. }
    rewrite H1. split; [lia|]. split.
    + intros c H. in_trace H; try discriminate H. now inversion H.
    + split; [|reflexivity]. intros _ w e H. in_trace H; discriminate H.
  - assert (H1 : count is_fs_call
                   (prelude req s ++ map EvRevertResolved (settle_list req s)
                      ++ [EvFsCall (request_call req);
                          EvFsResolved (request_call req) st';
                          EvFireAsync onDidRunWorkingCopyFileOperation
                            (descriptor req (correlationIds s));
                          EvFireAsyncDone onDidRunWorkingCopyFileOperation
                            (descriptor req (correlationIds s))]) = 1%nat).
    { rewrite !count_app, !count_none by not_in_trace. reflexivity. }
    rewrite H1. split; [lia|]. split.
    + intros c H. in_trace H; try discriminate H. now inversion H.
    + split; [|reflexivity]. intros _ w e H. in_trace H; discriminate H.
Qed.

(** X8.  Every invocation, also one that fails, begins with the will-run
    broadcast and fires will-run once. *)
Theorem X8_will_run_first_and_once (req : Request) (s : State W) :
  (exists rest,
     trace (invoke req s)
     = EvFireAsync onWillRunWorkingCopyFileOperation
         (descriptor req (correlationIds s))
       :: EvFireAsyncDone onWillRunWorkingCopyFileOperation
            (descriptor req (correlationIds s))
       :: rest)
  /\ count (is_fire onWillRunWorkingCopyFileOperation) (trace (invoke req s))
     = 1%nat.
Proof.
  destruct (invoke_run req s)
    as [done w' err later Hsplit|err x Hans|st' x Hans]; cbn [trace];
    (split;
     [unfold prelude; cbn [app]; eexists; reflexivity
     |unfold prelude; rewrite <- app_assoc, count_app, (count_none _ (_ ++ _))
        by not_in_trace; reflexivity]).
Qed.

(** X9.  An invocation throws nothing of its own: what it throws is the
    error of a rejected revert or the error of the file service, and what it
    returns is what the file service resolved with. *)
Theorem X9_outcome_provenance (req : Request) (s : State W) :
  match outcome (invoke req s) with
  | Throw err =>
      (exists w, In (EvRevertRejected w err) (trace (invoke req s))) \/
      In (EvFsRejected (request_call req) err) (trace (invoke req s))
  | Return st =>
      In (EvFsResolved (request_call req) st) (trace (invoke req s))
  end.
Proof.
  destruct (invoke_run req s)
    as [done w' err later Hsplit|err x Hans|st' x Hans]; cbn [trace outcome].
  - left. exists w'. rewrite !in_app_iff. simpl. auto.
  - right. rewrite !in_app_iff. simpl. auto.
  - rewrite !in_app_iff. simpl. auto.
Qed.

(** X10.  On a returning invocation the world goes through the will-run
    listeners, then through the file service, then through the did-run
    listeners; the reverts in between leave it alone. *)
Theorem X10_world_of_a_returning_invocation (req : Request) (s : State W)
    (st : option IFileStatWithMetadata) :
  outcome (invoke req s) = Return st ->
  exists x,
    request_answer req
      (listeners_run onWillRunWorkingCopyFileOperation
         (descriptor req (correlationIds s)) (world s))
    = (Return st, x)
    /\ world (final (invoke req s))
       = listeners_run onDidRunWorkingCopyFileOperation
           (descriptor req (correlationIds s)) x.
Proof.
  destruct (invoke_run req s)
    as [done w' err later Hsplit|err x Hans|st' x Hans];
    cbn [outcome final]; intros H; try discriminate H.
  inversion H; subst. exists x. split; [|reflexivity].
  unfold disk_state in Hans. rewrite reverted_all_world in Hans. exact Hans.
Qed.

(** X11.  When a revert rejects, the world is as the will-run listeners
    left it: the file service and the other listeners have not run. *)
Theorem X11_world_after_a_rejected_revert (req : Request) (s : State W)
    (w : WorkingCopy) (err : JSError) :
  In (EvRevertRejected w err) (trace (invoke req s)) ->
  world (final (invoke req s))
  = listeners_run onWillRunWorkingCopyFileOperation
      (descriptor req (correlationIds s)) (world s).
Proof.
  destruct (invoke_run req s)
    as [done w' err' later Hsplit|err' x Hans|st' x Hans];
    cbn [trace final]; intros H; in_trace H; try discriminate H.
  now rewrite reverted_all_world.
Qed.

(** X13.  Every event object that an invocation fires names the operation
    and the target; it names the source for a move and a copy and has no
    source property for a delete. *)
Theorem X13_event_objects (req : Request) (s : State W)
    (e : Emitter) (data : JSObject) :
  In (EvFireAsync e data) (trace (invoke req s)) ->
  get_prop data "operation" = Some (JOperation (request_operation req))
  /\ get_prop data "target" = Some (JResource (request_target req))
  /\ get_prop data "source" = option_map JResource (request_source req).
Proof.
  intros H. rewrite (fired_descriptor req s e data H).
  destruct req; repeat split; reflexivity.
Qed.

End Conduct.

(** ** The earlier revisions *)

Lemma awaited_events_map (t : list Event) : awaited_events (map Awaited t) = t.
Proof.
  unfold awaited_events. induction t as [|e t IH]; simpl; [reflexivity|].
  now f_equal.
Qed.

Lemma awaited_events_app (t1 t2 : list LegacyEvent) :
  awaited_events (t1 ++ t2) = (awaited_events t1 ++ awaited_events t2)%list.
Proof. unfold awaited_events. apply flat_map_app. Qed.

Lemma fired_sync_map (e : Emitter) (t : list Event) :
  fired_sync e (map Awaited t) = [].
Proof. unfold fired_sync. induction t as [|a t IH]; simpl; auto. Qed.

Lemma fired_sync_app (e : Emitter) (t1 t2 : list LegacyEvent) :
  fired_sync e (t1 ++ t2) = (fired_sync e t1 ++ fired_sync e t2)%list.
Proof. unfold fired_sync. apply flat_map_app. Qed.

Section Legacy.
Context {W : Type}.
Context {FS : IFileService W} {LS : Listeners W} {RT : WorkingCopyRuntime W}.

Lemma DeleteRun_eq (ctor : FileOperation -> URI -> JSObject) (P : URI)
    (options : option DeleteOptions) (s : State W) (r r' : LegacyRun W unit) :
  Part001.DeleteRun ctor P options s r -> r = r' ->
  Part001.DeleteRun ctor P options s r'.
Proof. intros H <-. exact H. Qed.

Ltac legacy_step :=
  cbv beta iota zeta delta
    [Part001.delete legacy_bind lift fire
     bind try_catch ret throw emit gets modify fireAsync fs_call
     Promise_all_revert
     outcome final trace fst snd legacy_outcome legacy_final legacy_trace];
  cbn [correlationIds workingCopies world].

Ltac legacy_defs :=
  cbv beta iota zeta delta
    [Part001.opening Part001.settling Part001.looked_up Part001.lookup_state
     Part000.getDirtyWorkingCopies];
  cbn [correlationIds workingCopies world].

Ltac legacy_trace_eq :=
  legacy_defs; rewrite ?reverted_all_ids;
  cbn [map app];
  repeat (rewrite ?map_app, <- ?app_assoc; cbn [map app]);
  rewrite ?app_nil_r; reflexivity.

(** How a [delete] of part_001 runs, whatever the class instance is. *)
Lemma Part001_delete_run (ctor : FileOperation -> URI -> JSObject) (P : URI)
    (options : option DeleteOptions) (s : State W) :
  Part001.DeleteRun ctor P options s (Part001.delete ctor P options s).
Proof.
  legacy_step. rewrite !revert_calls_run. legacy_step.
  match goal with |- context [settle ?l ?s0] => destruct (settle_run l s0) end.
  - legacy_step.
    destruct (fileService_del P options _) as [[[]|err] x] eqn:E; legacy_step.
    + eapply DeleteRun_eq; [eapply (Part001.DiskDone ctor P options s x)
                           |legacy_trace_eq].
      legacy_defs. exact E.
    + eapply DeleteRun_eq; [eapply (Part001.DiskFailed ctor P options s err x)
                           |legacy_trace_eq].
      legacy_defs. exact E.
  - legacy_step.
    eapply DeleteRun_eq;
      [eapply (Part001.RevertFailed ctor P options s done w err later)
      |legacy_trace_eq].
    legacy_defs. assumption.
Qed.

(** The [delete] of part_000 is that of part_001 with the object literal in
    the place of the class instance. *)
Lemma Part000_delete_run (P : URI) (options : option DeleteOptions) (s : State W) :
  Part001.DeleteRun did_run_literal P options s (Part000.delete P options s).
Proof. exact (Part001_delete_run did_run_literal P options s). Qed.

End Legacy.

Lemma in_map_Awaited (e : Event) (t : list Event) :
  In (Awaited e) (map Awaited t) <-> In e t.
Proof.
  split.
  - intros H. apply in_map_iff in H. destruct H as [x [Hx Hin]].
    inversion Hx. now subst.
  - apply in_map.
Qed.

Lemma not_fire_in_awaited (e : Emitter) (data : JSObject) (t : list Event) :
  ~ In (EvFire e data) (map Awaited t).
Proof.
  intros H. apply in_map_iff in H. destruct H as [x [Hx _]]. discriminate Hx.
Qed.

Section LegacyProperties.
Context {W : Type}.
Context {FS : IFileService W} {LS : Listeners W} {RT : WorkingCopyRuntime W}.

(** X14.  In the revision of part_000, when the file service throws,
    [delete] throws that error at once: the failed call is the last thing in
    the trace, no event is fired on a plain emitter, and nothing tells the
    listeners of the failure. *)
Theorem X14_part000_failure_is_silent (P : URI)
    (options : option DeleteOptions) (s : State W)
    (c : FsCall) (err : JSError) :
  In (Awaited (EvFsRejected c err)) (legacy_trace (Part000.delete P options s)) ->
  legacy_outcome (Part000.delete P options s) = Throw err
  /\ (exists t0, legacy_trace (Part000.delete P options s)
                 = (t0 ++ [Awaited (EvFsRejected c err)])%list)
  /\ (forall e data,
        ~ In (EvFire e data) (legacy_trace (Part000.delete P options s)))
  /\ (forall data,
        ~ In (Awaited (EvFireAsync onDidFailWorkingCopyFileOperation data))
             (legacy_trace (Part000.delete P options s))).
Proof.
  destruct (Part000_delete_run P options s)
    as [done w err' later Hsplit|err' x Hans|x Hans];
    cbn [legacy_trace legacy_outcome]; intros H.
  - apply in_map_Awaited in H. unfold Part001.opening in H.
    in_trace H; discriminate H.
  - apply in_map_Awaited in H. unfold Part001.opening in H.
    in_trace H; try discriminate H. inversion H; subst.
    split; [reflexivity|]. split; [|split].
    + exists (map Awaited
                (Part001.opening P s
                   ++ map EvRevertResolved (Part001.settling P s)
                   ++ [EvFsCall (FsDel P options)])).
      rewrite <- map_app with (l' := [EvFsRejected (FsDel P options) err]).
      now rewrite <- !app_assoc.
    + intros e data. apply not_fire_in_awaited.
    + intros data Hd. apply in_map_Awaited in Hd.
      unfold Part001.opening in Hd. in_trace Hd; discriminate Hd.
  - apply in_app_or in H. destruct H as [H|H].
    + apply in_map_Awaited in H. unfold Part001.opening in H.
      in_trace H; discriminate H.
    + destruct H as [H|[]]. discriminate H.
Qed.

(** X15.  In the revision of part_000, when [delete(P)] returns, every
    working copy that was dirty at [P] or below [P] is clean and still
    registered, whatever the scheme: that revision looks below [P] without
    asking the file service. *)
Theorem X15_part000_delete_cleans_below (P : URI)
    (options : option DeleteOptions) (s : State W) (w : WorkingCopy) :
  legacy_outcome (Part000.delete P options s) = Return tt ->
  In w (workingCopies s) ->
  isDirty w = true ->
  resource w = P \/ descendant_of (resource w) P ->
  In (markClean w) (workingCopies (legacy_final (Part000.delete P options s)))
  /\ (forall x,
        In x (workingCopies (legacy_final (Part000.delete P options s))) ->
        wc_ref x = wc_ref w -> isDirty x = false).
Proof.
  destruct (Part000_delete_run P options s)
    as [done w' err' later Hsplit|err' x Hans|x Hans];
    cbn [legacy_outcome legacy_final workingCopies];
    intros Hret Hreg Hdirty Hmatch; try discriminate Hret.
  assert (Hin : In w (Part001.settling P s)).
  { unfold Part001.settling.
    apply (Permutation_in w (Permutation_sym (settle_order_perm _ _))).
    unfold Part001.looked_up, Part000.getDirtyWorkingCopies, dirtyWorkingCopies.
    rewrite !filter_In, isEqualOrParent_spec. auto. }
  destruct (reverted_all_clean (Part001.settling P s)
              (Part001.lookup_state P s) w Hin) as [Hclean Hstill].
  split; [apply Hstill; exact Hreg | exact Hclean].
Qed.

(** X16.  The resolver of the current revision never selects a working copy
    that the resolver of part_000 does not select, and the two select the
    same working copies where the file service can handle the resource. *)
Theorem X16_resolver_against_part000 (P : URI) (s : State W) :
  incl (getDirtyWorkingCopies P s) (Part000.getDirtyWorkingCopies P s)
  /\ (canHandleResource (world s) P = true ->
      getDirtyWorkingCopies P s = Part000.getDirtyWorkingCopies P s).
Proof.
  split.
  - intros w H. apply getDirtyWorkingCopies_In in H.
    unfold Part000.getDirtyWorkingCopies, dirtyWorkingCopies.
    rewrite !filter_In, isEqualOrParent_spec. tauto.
  - intros H. unfold getDirtyWorkingCopies, Part000.getDirtyWorkingCopies.
    now rewrite H.
Qed.

(** X17.  The [delete] of part_001 and the [delete] of part_000 throw or
    return alike, have the same awaited effects in the same order and leave
    the same registry, whatever object the class instance of part_001 is;
    they are the same function when that instance is the object literal of
    part_000. *)
Theorem X17_part001_is_part000 (ctor : FileOperation -> URI -> JSObject)
    (P : URI) (options : option DeleteOptions) (s : State W) :
  legacy_outcome (Part001.delete ctor P options s)
    = legacy_outcome (Part000.delete P options s)
  /\ awaited_events (legacy_trace (Part001.delete ctor P options s))
     = awaited_events (legacy_trace (Part000.delete P options s))
  /\ workingCopies (legacy_final (Part001.delete ctor P options s))
     = workingCopies (legacy_final (Part000.delete P options s))
  /\ Part001.delete did_run_literal P options s = Part000.delete P options s.
Proof.
  split; [|split; [|split]]; [| | |reflexivity];
    unfold Part000.delete, Part000.delete_event, Part000.getDirtyWorkingCopies;
    cbv beta iota zeta delta
      [Part001.delete legacy_bind lift fire
       bind try_catch ret throw emit gets modify fireAsync fs_call
       Promise_all_revert
       outcome final trace fst snd legacy_outcome legacy_final legacy_trace];
    cbn [correlationIds workingCopies world];
    rewrite !revert_calls_run;
    cbv beta iota zeta delta
      [outcome final trace legacy_outcome legacy_final legacy_trace];
    match goal with |- context [settle ?l ?s0] => destruct (settle l s0) as [[[]|e] s1 t1] end;
    cbv beta iota zeta delta
      [outcome final trace fst snd legacy_outcome legacy_final legacy_trace];
    cbn [correlationIds workingCopies world];
    try reflexivity;
    destruct (fileService_del P options _) as [[[]|err] x];
    cbv beta iota zeta delta
      [outcome final trace fst snd legacy_outcome legacy_final legacy_trace];
    cbn [correlationIds workingCopies world];
    try reflexivity;
    rewrite !awaited_events_app; reflexivity.
Qed.

(** X18.  In the revision of part_000, did-run is fired exactly when
    [delete] returns, once, with the event object of will-run, and it is the
    last thing [delete] does. *)
Theorem X18_part000_did_run_on_return (P : URI)
    (options : option DeleteOptions) (s : State W) :
  match legacy_outcome (Part000.delete P options s) with
  | Return _ =>
      fired_sync onDidRunWorkingCopyFileOperation
        (legacy_trace (Part000.delete P options s))
      = [Part000.delete_event P]
      /\ In (Awaited (EvFireAsync onWillRunWorkingCopyFileOperation
                        (Part000.delete_event P)))
            (legacy_trace (Part000.delete P options s))
      /\ exists t0, legacy_trace (Part000.delete P options s)
                    = (t0 ++ [EvFire onDidRunWorkingCopyFileOperation
                                (Part000.delete_event P)])%list
  | Throw _ =>
      forall e data,
        ~ In (EvFire e data) (legacy_trace (Part000.delete P options s))
  end.
Proof.
  destruct (Part000_delete_run P options s)
    as [done w err' later Hsplit|err' x Hans|x Hans];
    cbn [legacy_trace legacy_outcome].
  - intros e data. apply not_fire_in_awaited.
  - intros e data. apply not_fire_in_awaited.
  - split; [|split].
    + now rewrite fired_sync_app, fired_sync_map.
    + apply in_or_app. left. apply in_map_Awaited.
      unfold Part001.opening. simpl. auto.
    + eexists. reflexivity.
Qed.

End LegacyProperties.

(** ** The further properties, on the scenarios *)

Module ExtraFacts.
Import TestServices Scenarios MoreScenarios.

(** The test of the repository: a dirty file is not dirty once deleted. *)
Example test_delete_dirty_file :
  existsb (fun w => URI_eqb (resource w) (file "/a/file.txt") && isDirty w)
          (workingCopies s0) = true
  /\ existsb (fun w => URI_eqb (resource w) (file "/a/file.txt") && isDirty w)
             (workingCopies (final (delete (file "/a/file.txt") None s0)))
     = false.
Proof. split; reflexivity. Qed.

Lemma X1_witness :
  In (EvFsCall (FsMove (mem "/a") (mem "/a/b") None))
     (trace (invoke (ReqMove (mem "/a") (mem "/a/b") None) s0))
  /\ In (markClean flat_child)
        (workingCopies (final (invoke (ReqMove (mem "/a") (mem "/a/b") None) s0)))
  /\ isDirty (markClean flat_child) = false.
Proof.
  assert (H1 : In (EvFsCall (FsMove (mem "/a") (mem "/a/b") None))
                  (trace (invoke (ReqMove (mem "/a") (mem "/a/b") None) s0)))
    by (simpl; auto 10).
  assert (H2 : In (markClean flat_child)
                  (workingCopies
                     (final (invoke (ReqMove (mem "/a") (mem "/a/b") None) s0))))
    by (simpl; auto 10).
  split; [exact H1|]. split; [exact H2|].
  apply (X1_no_dirty_copy_at_touched _ s0 _ (markClean flat_child) H1 H2).
  simpl. auto.
Defined.

Lemma X3_witness :
  In deep (workingCopies s0)
  /\ ~ In (wc_ref deep)
          (map wc_ref (resolved (ReqCopy (file "/a") (file "/z") None) s0))
  /\ In deep
        (workingCopies (final (invoke (ReqCopy (file "/a") (file "/z") None) s0))).
Proof.
  assert (H1 : In deep (workingCopies s0)) by (simpl; auto).
  assert (H2 : ~ In (wc_ref deep)
                    (map wc_ref
                       (resolved (ReqCopy (file "/a") (file "/z") None) s0))).
  { simpl. intros [H|[]]. discriminate H. }
  split; [exact H1|]. split; [exact H2|].
  apply (X3_other_copies_untouched _ s0 deep H1 H2).
Defined.

Lemma X4_witness :
  dirtyWorkingCopies s_clean = []
  /\ workingCopies (final (invoke (ReqDelete (file "/a") None) s_clean))
     = workingCopies s_clean.
Proof.
  split; [reflexivity|].
  apply (X4_nothing_dirty (ReqDelete (file "/a") None) s_clean). reflexivity.
Defined.

Lemma X5_witness :
  correlationIds
    (state_after [ ReqDelete (file "/nowhere") None;
                   ReqMove (file "/a") (file "/z") None;
                   ReqDelete (file "/a") None ] s_failing)
  = 3.
Proof.
  refine (X5_counter_after_invocations
            [ ReqDelete (file "/nowhere") None;
              ReqMove (file "/a") (file "/z") None;
              ReqDelete (file "/a") None ] s_failing _).
  vm_compute. discriminate.
Defined.

Lemma X10_witness :
  outcome (invoke (ReqDelete (file "/a/file.txt") None) s0) = Return None
  /\ seen (world (final (invoke (ReqDelete (file "/a/file.txt") None) s0)))
     = 2%nat.
Proof.
  assert (H : outcome (invoke (ReqDelete (file "/a/file.txt") None) s0)
              = Return None) by reflexivity.
  split; [exact H|].
  destruct (X10_world_of_a_returning_invocation
              (ReqDelete (file "/a/file.txt") None) s0 None H)
    as [x [Hx ->]].
  simpl in Hx. inversion Hx. reflexivity.
Defined.

Lemma X11_witness :
  In (EvRevertRejected deep (mkError "revert failed"))
     (trace (invoke (ReqDelete (file "/a") None) s_failing))
  /\ disk (world (final (invoke (ReqDelete (file "/a") None) s_failing)))
     = disk0.
Proof.
  assert (H : In (EvRevertRejected deep (mkError "revert failed"))
                 (trace (invoke (ReqDelete (file "/a") None) s_failing)))
    by (simpl; auto 10).
  split; [exact H|].
  rewrite (X11_world_after_a_rejected_revert _ s_failing _ _ H). reflexivity.
Defined.

Lemma X13_witness :
  In (EvFireAsync onDidRunWorkingCopyFileOperation
        (delete_event 0 (file "/a/file.txt")))
     (trace (invoke (ReqDelete (file "/a/file.txt") None) s0))
  /\ get_prop (delete_event 0 (file "/a/file.txt")) "source" = None.
Proof.
  assert (H : In (EvFireAsync onDidRunWorkingCopyFileOperation
                    (delete_event 0 (file "/a/file.txt")))
                 (trace (invoke (ReqDelete (file "/a/file.txt") None) s0)))
    by (simpl; auto 10).
  split; [exact H|].
  exact (proj2 (proj2 (X13_event_objects _ s0 _ _ H))).
Defined.

Lemma X14_witness :
  In (Awaited (EvFsRejected (FsDel (file "/z/old.txt") None) ENOENT))
     (legacy_trace (Part000.delete (file "/z/old.txt") None s0))
  /\ legacy_outcome (Part000.delete (file "/z/old.txt") None s0) = Throw ENOENT.
Proof.
  assert (H : In (Awaited (EvFsRejected (FsDel (file "/z/old.txt") None) ENOENT))
                 (legacy_trace (Part000.delete (file "/z/old.txt") None s0)))
    by (simpl; auto 10).
  split; [exact H|].
  exact (proj1 (X14_part000_failure_is_silent _ None s0 _ _ H)).
Defined.

(** The scenario in which the current revision leaves [flat_child] dirty:
    the revision of part_000 cleans it. *)
Lemma X15_witness :
  legacy_outcome (Part000.delete (mem "/a") None s0) = Return tt
  /\ In (markClean flat_child)
        (workingCopies (legacy_final (Part000.delete (mem "/a") None s0))).
Proof.
  split; [reflexivity|].
  apply (X15_part000_delete_cleans_below (mem "/a") None s0 flat_child).
  - reflexivity.
  - simpl. auto.
  - reflexivity.
  - right. split; [reflexivity|]. exists "b", []. reflexivity.
Defined.

End ExtraFacts.
